(** * Fuzzy C-Means over arbitrary-precision numbers: a model of [src/fcm.py]

    The program computes with [mpmath.mpf] values held in [numpy] object
    arrays.  The arithmetic of [mpmath] is a library of its own, so the model
    is written over an interface [MpfOps] that lists the operations the
    program calls; nothing is assumed about them except that a division by
    zero raises [ZeroDivisionError], as does a power of zero for the
    exponents that the interface names.  Every function of [fcm.py] is
    transcribed over that interface, with Python exceptions as values and
    with the in-place updates of the membership array as explicit state.

    The second half instantiates the interface with exact rational
    arithmetic, on which the functions can be run. *)

From Stdlib Require Import ZArith QArith Qabs Qround Lqa List String Lia Bool.
From Bignums Require Import BigZ BigQ.
From stdpp Require Import base option list strings.

Local Open Scope nat_scope.

(** ** Exceptions and the two monads of the model *)

(** A Python exception is identified by the name of its class. *)
Definition exn := string.

Definition ZeroDivisionError : exn := "ZeroDivisionError"%string.
Definition AssertionError : exn := "AssertionError"%string.
Definition IndexError : exn := "IndexError"%string.
Definition ValueError : exn := "ValueError"%string.
Definition AttributeError : exn := "AttributeError"%string.

(** The error kinds of the specification; no function of [fcm.py] raises
    them. *)
Definition InvalidFuzziness : exn := "InvalidFuzziness"%string.
Definition DegenerateCluster : exn := "DegenerateCluster"%string.

Inductive result (A : Type) : Type :=
| Ok (a : A)
| Raise (e : exn).
Arguments Ok {A} a.
Arguments Raise {A} e.

#[global] Instance result_ret : MRet result := fun A a => Ok a.
#[global] Instance result_bind : MBind result := fun A B f m =>
  match m with
  | Ok a => f a
  | Raise e => Raise e
  end.

(** Code that updates an object in place: the object is threaded through,
    and it survives an exception with whatever was written before. *)
Definition stx (S A : Type) : Type := S -> S * result A.

#[global] Instance stx_ret {S} : MRet (stx S) := fun A a s => (s, Ok a).
#[global] Instance stx_bind {S} : MBind (stx S) := fun A B f m s =>
  match m s with
  | (s', Ok a) => f a s'
  | (s', Raise e) => (s', Raise e)
  end.

Definition lift {S A} (r : result A) : stx S A := fun s => (s, r).
Definition get_state {S} : stx S S := fun s => (s, Ok s).
Definition put_state {S} (s' : S) : stx S unit := fun _ => (s', Ok tt).

(** [for x in xs: body x], left to right, stopping at the first exception. *)
Fixpoint for_each {S A} (xs : list A) (body : A -> stx S unit) : stx S unit :=
  match xs with
  | [] => mret tt
  | x :: rest => body x ≫= fun _ => for_each rest body
  end.

(** A list comprehension whose element expression may raise. *)
Fixpoint traverse {A B} (f : A -> result B) (xs : list A) : result (list B) :=
  match xs with
  | [] => Ok []
  | x :: rest =>
      match f x with
      | Ok b => match traverse f rest with
                | Ok bs => Ok (b :: bs)
                | Raise e => Raise e
                end
      | Raise e => Raise e
      end
  end.

(** [xs[i]] for [i] from a [range]: out of range is [IndexError]. *)
Definition index {A} (xs : list A) (i : nat) : result A :=
  match xs !! i with
  | Some x => Ok x
  | None => Raise IndexError
  end.

(** Python's [a // b] on non-negative integers. *)
Definition floordiv (a b : nat) : result nat :=
  if b =? 0 then Raise ZeroDivisionError else Ok (a / b).

(** ** The doubles around 1

    [math.isclose] works on doubles: [isclose(x, 1.0)] first takes
    [float(x)], the double nearest to [x], ties going to the even one.  A
    double is modelled by the rational it stands for.  Only the doubles
    from 1/2 to 2 are needed: outside them the test fails whatever the
    digits are. *)

Section Doubles.

Local Open Scope Q_scope.

(** The nearest integer, a tie going to the even one. *)
Definition round_half_even (q : Q) : Z :=
  let f := Qfloor q in
  match Qcompare (q - inject_Z f) (1 # 2) with
  | Lt => f
  | Gt => (f + 1)%Z
  | Eq => if Z.even f then f else (f + 1)%Z
  end.

(** The nearest multiple of [ulp]. *)
Definition round_to (ulp q : Q) : Q := inject_Z (round_half_even (q / ulp)) * ulp.

(** The spacing of the doubles of [[1/2, 1)] and of [[1, 2)], and of the
    three binades in which [rel_tol * a] can fall for such an [a]. *)
Definition ulp_below_1 : Q := Eval vm_compute in (1 # 2 ^ 53).
Definition ulp_above_1 : Q := Eval vm_compute in (1 # 2 ^ 52).
Definition ulp_2_m31 : Q := Eval vm_compute in (1 # 2 ^ 83).
Definition ulp_2_m30 : Q := Eval vm_compute in (1 # 2 ^ 82).
Definition ulp_2_m29 : Q := Eval vm_compute in (1 # 2 ^ 81).
Definition two_m30 : Q := Eval vm_compute in (1 # 2 ^ 30).
Definition two_m29 : Q := Eval vm_compute in (1 # 2 ^ 29).

Definition Qlt_bool (a b : Q) : bool := negb (Qle_bool b a).

(** [float(x)] for [x] from 1/2 up to 2. *)
Definition float_near_1 (q : Q) : option Q :=
  if Qle_bool (1 # 2) q && Qlt_bool q 1 then Some (round_to ulp_below_1 q)
  else if Qle_bool 1 q && Qlt_bool q 2 then Some (round_to ulp_above_1 q)
  else None.

(** The default [rel_tol = 1e-09] of [math.isclose]: the double nearest to
    one billionth, which lies between 2^-30 and 2^-29. *)
Definition rel_tol : Q := Eval vm_compute in Qred (round_to ulp_2_m30 (1 # 1000000000)).

(** The product [rel_tol * a] of two doubles, [a] being between 1/2 and 2:
    the exact product, rounded in the binade where it falls. *)
Definition float_mul_rel_tol (a : Q) : Q :=
  let x := rel_tol * a in
  if Qlt_bool x two_m30 then round_to ulp_2_m31 x
  else if Qlt_bool x two_m29 then round_to ulp_2_m30 x
  else round_to ulp_2_m29 x.

(** [math.isclose(x, 1.0)] for [x] of value [q], with the default
    [rel_tol = 1e-09] and [abs_tol = 0.0]:
    [diff <= fabs(rel_tol * b) or diff <= fabs(rel_tol * a) or diff <= abs_tol]
    for [a = float(x)], [b = 1.0] and [diff = fabs(b - a)].  The difference
    of two doubles that are within a factor two of each other is exact, and
    [rel_tol * 1.0] is [rel_tol]; the test on [abs_tol = 0.0] adds nothing
    to the first one. *)
Definition isclose_to_1 (q : Q) : bool :=
  match float_near_1 q with
  | None => false
  | Some a =>
      let diff := Qabs (1 - a) in
      Qle_bool diff rel_tol || Qle_bool diff (float_mul_rel_tol a)
  end.


End Doubles.

(** ** The arithmetic the program calls *)

Class MpfOps (num : Type) : Type := {
  mpf_0 : num;                      (* mpf(0), and the 0 of an empty np.sum *)
  mpf_1 : num;                      (* mpf(1) *)
  mpf_2 : num;                      (* mpf(2) *)
  mp_add : num -> num -> num;       (* x + y *)
  mp_sub : num -> num -> num;       (* x - y *)
  mp_mul : num -> num -> num;       (* x * y *)
  mp_quot : num -> num -> num;      (* x / y for y that is not zero *)
  mp_pow : num -> num -> num;       (* the value of x ** y, mpmath.power *)
  mp_pow_raises : num -> num -> bool; (* x ** y raises ZeroDivisionError *)
  mp_sqrt : num -> num;             (* mpmath.sqrt *)
  mp_fsum : list num -> num;        (* mpmath.fsum *)
  mp_is_zero : num -> bool;         (* x == 0 *)
  mp_lt : num -> num -> bool;       (* x < y *)
  mp_value : num -> option Q        (* the value of a finite x *)
}.

(** A two-dimensional array is the list of its rows. *)
Abbreviation matrix num := (list (list num)) (only parsing).

(** The (point, cluster) pairs in the order in which two nested loops over
    [range(N)] and [range(K)] visit them. *)
Abbreviation visits N K := (k ← seq 0 N; i ← seq 0 K; [(k, i)]).

(** The exceptions that the program itself can raise in a fit. *)
Abbreviation fit_exception e :=
  (e = ValueError \/ e = ZeroDivisionError \/ e = IndexError \/ e = AssertionError).

Section Model.

Context {num : Type} `{MpfOps num}.

(** [mpmath.fdiv]: raises on a zero divisor. *)
Definition fdiv (x y : num) : result num :=
  if mp_is_zero y then Raise ZeroDivisionError else Ok (mp_quot x y).

(** ** The parts of numpy the program uses *)

(** [np.sum] of a one-dimensional object array: the elements are added from
    left to right, starting from the first one. *)
Definition np_sum (xs : list num) : num :=
  match xs with
  | [] => mpf_0
  | x :: rest => fold_left mp_add rest x
  end.

(** Element-wise operation on two arrays, with numpy's broadcasting of an
    axis of length one; other unequal lengths are a [ValueError]. *)
Definition broadcast {A B C} (f : A -> B -> result C)
    (x : list A) (y : list B) : result (list C) :=
  if length x =? length y then traverse (fun p => f p.1 p.2) (zip x y)
  else match x, y with
       | [a], _ => traverse (f a) y
       | _, [b] => traverse (fun a => f a b) x
       | _, _ => Raise ValueError
       end.

Definition np_subtract (x y : list num) : result (list num) :=
  broadcast (fun a b => Ok (mp_sub a b)) x y.

Definition np_multiply (x y : list num) : result (list num) :=
  broadcast (fun a b => Ok (mp_mul a b)) x y.

Definition np_subtract2 (x y : matrix num) : result (matrix num) :=
  broadcast np_subtract x y.

(** [x ** y] and [power(x, y)]: [mpmath] raises [ZeroDivisionError] on a
    zero [x] for some negative [y]. *)
Definition power (x y : num) : result num :=
  if mp_pow_raises x y then Raise ZeroDivisionError else Ok (mp_pow x y).

(** The values of [a ** e] on every element. *)
Definition np_power (x : list num) (e : num) : list num :=
  map (fun a => mp_pow a e) x.

(** [x ** e] for an array [x], element after element. *)
Definition array_power (x : list num) (e : num) : result (list num) :=
  traverse (fun a => power a e) x.

(** [m.shape[0]] and [m.shape[1]]; a matrix is the list of its rows, and one
    without rows is taken to have no columns. *)
Definition shape0 (m : matrix num) : nat := length m.
Definition shape1 (m : matrix num) : nat :=
  match m with
  | [] => 0
  | row :: _ => length row
  end.

(** Column [k] of a matrix, and [m.T]. *)
Definition column (k : nat) (m : matrix num) : list num := omap (fun row => row !! k) m.
Definition transpose (m : matrix num) : matrix num :=
  map (fun k => column k m) (seq 0 (shape1 m)).

(** [np.reshape(xs, (r, c))] of a flat array: [r] rows of [c] elements. *)
Fixpoint chunks (r c : nat) (xs : list num) : matrix num :=
  match r with
  | 0 => []
  | S r' => take c xs :: chunks r' c (drop c xs)
  end.

Definition np_reshape (xs : list num) (r c : nat) : result (matrix num) :=
  if r * c =? length xs then Ok (chunks r c xs) else Raise ValueError.

(** ** Distance engine *)

(** [calculate_euclidean_distance]: the squared Euclidean distance.  The
    exponent is the literal [mpf(2)], with which a power raises nothing. *)
Definition calculate_euclidean_distance (x y : list num) : result num :=
  d ← np_subtract x y;
  Ok (mp_fsum (np_power d mpf_2)).

(** [matrix_norm]: Frobenius norm of the difference. *)
Definition matrix_norm (x y : matrix num) : result num :=
  d ← np_subtract2 x y;
  Ok (mp_sqrt (np_sum (concat (map (fun row => np_power row mpf_2) d)))).

(** [calculate_distances]: the comprehension runs over the points and, for
    each point, over the centers; the flat array is then cut into rows of
    [centers.shape[0]] entries. *)
Definition calculate_distances (data centers : matrix num) : result (matrix num) :=
  distances ← traverse (fun p => calculate_euclidean_distance p.1 p.2)
                       (i ← data; j ← centers; [(i, j)]);
  r ← floordiv (length distances) (shape0 centers);
  np_reshape distances r (shape0 centers).

(** ** Membership updater *)

(** [np.sum(matriz, axis=0)]: one sum per column. *)
Definition np_sum_axis0 (matriz : matrix num) : list num :=
  map (fun k => np_sum (column k matriz)) (seq 0 (shape1 matriz)).

(** [math.isclose(x, 1.0)] on a number of the program; a number without a
    finite value (an infinity, a NaN) is close to nothing. *)
Definition isclose_1 (x : num) : bool :=
  match mp_value x with
  | Some q => isclose_to_1 q
  | None => false
  end.

(** [__verificar_soma_igual_a_1__]: the assertion on the column sums. *)
Definition __verificar_soma_igual_a_1__ (matriz : matrix num) : result unit :=
  let soma_colunas := np_sum_axis0 matriz in
  if forallb isclose_1 soma_colunas then Ok tt else Raise AssertionError.

(** The comprehension of [update_membership] for point [k] and cluster [i]:
    [power(fdiv(distances[k][i], distances[k][j]), expoente)] for [j] in
    [range(n_clusters)].  The power is taken by value: it can only raise on
    a quotient that is zero, that is on a zero [distances[k][i]], and then
    the quotient for [j = i] of the same comprehension raises the same
    [ZeroDivisionError] in [fdiv], nothing being written in between. *)
Definition razao_entre_as_distancias (distances : matrix num) (expoente : num)
    (k i j : nat) : result num :=
  row ← index distances k;
  dki ← index row i;
  row' ← index distances k;
  dkj ← index row' j;
  q ← fdiv dki dkj;
  Ok (mp_pow q expoente).

(** [u[i][k] = v]. *)
Definition setitem2 (u : matrix num) (i k : nat) (v : num) : matrix num * result unit :=
  match u !! i with
  | None => (u, Raise IndexError)
  | Some row =>
      if decide (k < length row) then (<[i := <[k := v]> row]> u, Ok tt)
      else (u, Raise IndexError)
  end.

(** The value that the loops of [update_membership] compute for point [k]
    and cluster [i]: [fdiv(mpf(1), np.sum([...]))]. *)
Definition membership_value (distances : matrix num) (n_clusters : nat)
    (expoente : num) (k i : nat) : result num :=
  razoes ← traverse (razao_entre_as_distancias distances expoente k i)
                    (seq 0 n_clusters);
  let soma_razao_entre_as_distancias := np_sum razoes in
  fdiv mpf_1 soma_razao_entre_as_distancias.

(** Body of the two loops of [update_membership]. *)
Definition update_entry (distances : matrix num) (n_clusters : nat) (expoente : num)
    (k i : nat) : stx (matrix num) unit :=
  v ← lift (membership_value distances n_clusters expoente k i);
  ((fun u => setitem2 u i k v) : stx (matrix num) unit).

(** The statements of [update_membership] that precede the final check. *)
Definition update_membership_loops (data distances : matrix num) (n_clusters : nat)
    (mu : num) : stx (matrix num) unit :=
  expoente ← lift (fdiv mpf_2 (mp_sub mu mpf_1));
  for_each (seq 0 (shape0 data)) (fun k =>
    for_each (seq 0 n_clusters) (fun i =>
      update_entry distances n_clusters expoente k i)).

(** [update_membership]: the array [u] is updated in place; the function
    yields the contents of [u] when it returns or raises. *)
Definition update_membership (u data distances : matrix num) (n_clusters : nat)
    (mu : num) : matrix num * result unit :=
  (update_membership_loops data distances n_clusters mu;;
   ((fun u' => (u', __verificar_soma_igual_a_1__ u')) : stx (matrix num) unit)) u.

(** [u[i][k]] when both indices are in range. *)
Definition entry (u : matrix num) (i k : nat) : option num :=
  u !! i ≫= fun row => row !! k.

(** The update rule as the specification writes it:
    [1 / sum_j (d[k][i] / d[k][j]) ^ (2 / (mu - 1))], for [j] over the
    clusters. *)
Definition d_at (d : matrix num) (k j : nat) : num := default mpf_0 (entry d k j).

Definition sum_of_ratios (d : matrix num) (n_clusters : nat) (mu : num)
    (k i : nat) : num :=
  np_sum (map (fun j => mp_pow (mp_quot (d_at d k i) (d_at d k j))
                               (mp_quot mpf_2 (mp_sub mu mpf_1)))
              (seq 0 n_clusters)).

Definition membership_rule (d : matrix num) (n_clusters : nat) (mu : num)
    (k i : nat) : num :=
  mp_quot mpf_1 (sum_of_ratios d n_clusters mu k i).

(** ** Centroid updater *)

(** One element of the comprehension of [update_centroids], for the row [i]
    of [u] and the row [j] of [data.T]. *)
Definition centroid_entry (mu : num) (i j : list num) : result num :=
  w ← array_power i mu;
  prod ← np_multiply w j;
  w' ← array_power i mu;
  fdiv (np_sum prod) (np_sum w').

Definition update_centroids (u data : matrix num) (mu : num) : result (matrix num) :=
  C ← traverse (fun p => centroid_entry mu p.1 p.2)
               (i ← u; j ← transpose data; [(i, j)]);
  r ← floordiv (length C) (shape1 data);
  np_reshape C r (shape1 data).

(** ** Objective evaluator *)

Definition mmg (u data centers : matrix num) (mu : num) : result num :=
  foldl (fun total p =>
           total ← total;
           let '(i, d, (j, c)) := p in
           distance ← calculate_euclidean_distance c d;
           row ← index u j;
           uji ← index row i;
           _u ← power uji mu;
           Ok (mp_add total (mp_mul distance _u)))
        (Ok mpf_0)
        (id ← imap pair data; jc ← imap pair centers; [(id, jc)]).

(** ** The class [FCM] *)

(** An instance of [FCM]; the attributes [data], [u] and [centers] exist
    only once [fit] has assigned them. *)
Record FCM : Type := {
  n_clusters : nat;
  mu : num;
  eps : num;
  data : option (matrix num);
  u : option (matrix num);
  centers : option (matrix num)
}.

Definition __init__ (n_clusters : nat) (mu eps : num) : FCM :=
  {| n_clusters := n_clusters; mu := mu; eps := eps;
     data := None; u := None; centers := None |}.

Definition set_data (v : matrix num) (self : FCM) : FCM :=
  {| n_clusters := n_clusters self; mu := mu self; eps := eps self;
     data := Some v; u := u self; centers := centers self |}.
Definition set_u (v : matrix num) (self : FCM) : FCM :=
  {| n_clusters := n_clusters self; mu := mu self; eps := eps self;
     data := data self; u := Some v; centers := centers self |}.
Definition set_centers (v : matrix num) (self : FCM) : FCM :=
  {| n_clusters := n_clusters self; mu := mu self; eps := eps self;
     data := data self; u := u self; centers := Some v |}.

(** Reading an attribute of [self]. *)
Definition attr {A} (field : FCM -> option A) : stx FCM A := fun self =>
  match field self with
  | Some v => (self, Ok v)
  | None => (self, Raise AttributeError)
  end.

Definition _update_membership : stx FCM unit :=
  data_ ← attr data;
  centers_ ← attr centers;
  distances ← lift (calculate_distances data_ centers_);
  u_ ← attr u;
  ((fun self =>
      let '(u', r) := update_membership u_ data_ distances (n_clusters self) (mu self) in
      (set_u u' self, r)) : stx FCM unit).

Definition _update_centroids : stx FCM unit :=
  u_ ← attr u;
  data_ ← attr data;
  ((fun self =>
      match update_centroids u_ data_ (mu self) with
      | Ok C => (set_centers C self, Ok tt)
      | Raise e => (self, Raise e)
      end) : stx FCM unit).

(** The property [J]. *)
Definition J (self : FCM) : result num :=
  match u self, data self, centers self with
  | Some u_, Some data_, Some centers_ => mmg u_ data_ centers_ (mu self)
  | _, _, _ => Raise AttributeError
  end.

(** [np.vectorize(lambda x: mpf(str(x)))]: the conversion leaves the entries
    as they are in the model; numpy refuses an array without elements. *)
Definition to_bigfloat (m : matrix num) : result (matrix num) :=
  if length (concat m) =? 0 then Raise ValueError else Ok m.

(** [_gerar_inicializacao] draws its matrix at random; the draw, normalised
    by column, is an argument of the model.  It is then converted by
    [np.vectorize(lambda x: mpf(x))], which refuses a draw without
    elements. *)
Definition _gerar_inicializacao (draw : nat -> nat -> matrix num) : stx FCM (matrix num) :=
  data_ ← attr data;
  ((fun self => (self, to_bigfloat (draw (n_clusters self) (shape0 data_))))
     : stx FCM (matrix num)).

(** One turn of the [while True] loop of [fit]; the result tells whether the
    [break] is taken. *)
Definition fit_iteration : stx FCM bool :=
  u_copy ← attr u;
  _update_membership;;
  _update_centroids;;
  u_ ← attr u;
  norm ← lift (matrix_norm u_copy u_);
  ((fun self => (self, Ok (mp_lt norm (eps self)))) : stx FCM bool).

(** The loop, with a bound on the number of turns: [None] when the bound is
    reached before the loop ends. *)
Fixpoint fit_loop (fuel : nat) (self : FCM) : option (FCM * result unit) :=
  match fuel with
  | 0 => None
  | S fuel' =>
      match fit_iteration self with
      | (self', Ok true) => Some (self', Ok tt)
      | (self', Ok false) => fit_loop fuel' self'
      | (self', Raise e) => Some (self', Raise e)
      end
  end.

(** What [fit] does before the loop. *)
Definition fit_prologue (draw : nat -> nat -> matrix num) (data_ : matrix num)
    (u_ : option (matrix num)) : stx FCM unit :=
  d ← lift (to_bigfloat data_);
  ((fun self => (set_data d self, Ok tt)) : stx FCM unit);;
  u0 ← match u_ with
       | None => _gerar_inicializacao draw
       | Some m => lift (to_bigfloat m)
       end;
  ((fun self => (set_u u0 self, Ok tt)) : stx FCM unit);;
  _update_centroids.

Definition fit (fuel : nat) (draw : nat -> nat -> matrix num) (data_ : matrix num)
    (u_ : option (matrix num)) (self : FCM) : option (FCM * result unit) :=
  match fit_prologue draw data_ u_ self with
  | (self', Ok _) => fit_loop fuel self'
  | (self', Raise e) => Some (self', Raise e)
  end.

(** ** The fit run as the specification describes it *)

(** One turn of the loop: the distance matrix is recomputed from the data
    and the current centers, the membership updater yields [u1] from it, and
    the centroid updater yields [c1] from [u1]. *)
Definition spec_turn (self self' : FCM) : Prop :=
  exists data_ u0 c0 distances u1 c1,
    data self = Some data_ /\ u self = Some u0 /\ centers self = Some c0 /\
    calculate_distances data_ c0 = Ok distances /\
    update_membership u0 data_ distances (n_clusters self) (mu self) = (u1, Ok tt) /\
    update_centroids u1 data_ (mu self) = Ok c1 /\
    self' = set_centers c1 (set_u u1 self).

(** The convergence test of a turn: [b] tells whether the Frobenius norm
    between the snapshot of the membership taken before the turn and the
    membership after it is strictly less than epsilon. *)
Definition spec_converged (self self' : FCM) (b : bool) : Prop :=
  exists snapshot current norm,
    u self = Some snapshot /\ u self' = Some current /\
    matrix_norm snapshot current = Ok norm /\
    mp_lt norm (eps self) = b.

(** Turns are repeated until the test of one of them holds. *)
Inductive spec_loop : FCM -> FCM -> Prop :=
| spec_loop_stop self self' :
    spec_turn self self' -> spec_converged self self' true ->
    spec_loop self self'
| spec_loop_again self self' final :
    spec_turn self self' -> spec_converged self self' false ->
    spec_loop self' final ->
    spec_loop self final.

(** The priming step: one centroid update from the initial membership. *)
Definition spec_priming (data_ u0 : matrix num) (self primed : FCM) : Prop :=
  exists c,
    update_centroids u0 data_ (mu self) = Ok c /\
    primed = set_centers c (set_u u0 (set_data data_ self)).

(** The initial membership: the one supplied, or the one drawn; it has
    elements. *)
Definition spec_initial (draw : nat -> nat -> matrix num) (data_ : matrix num)
    (u_ : option (matrix num)) (self : FCM) (u0 : matrix num) : Prop :=
  match u_ with
  | Some m => u0 = m /\ concat m <> []
  | None => u0 = draw (n_clusters self) (shape0 data_) /\ concat u0 <> []
  end.

Definition spec_fit (draw : nat -> nat -> matrix num) (data_ : matrix num)
    (u_ : option (matrix num)) (self final : FCM) : Prop :=
  concat data_ <> [] /\
  exists u0 primed,
    spec_initial draw data_ u_ self u0 /\
    spec_priming data_ u0 self primed /\
    spec_loop primed final.

End Model.

Arguments FCM num : clear implicits.

(** ** Exact arithmetic

    An instance of the interface on which the program can be run: the
    rationals of the Bignums library, with exact operations.  The Frobenius
    norm is the only place where a square root is taken, and its value is
    only compared with [eps], so a square root is kept as a symbol, [XSqrt q]
    for the root of [q].  A value that is not of one of these two forms (a
    power with an exponent that is not an integer, arithmetic on a root) is
    [XNaN], which every operation propagates and no comparison accepts. *)

Inductive xnum : Type :=
| XRat (q : bigQ)
| XSqrt (q : bigQ)
| XNaN.

Definition Qltb (a b : bigQ) : bool :=
  match BigQ.compare a b with Lt => true | _ => false end.
Definition Qleb (a b : bigQ) : bool :=
  match BigQ.compare a b with Gt => false | _ => true end.

Definition xlift2 (f : bigQ -> bigQ -> bigQ) (x y : xnum) : xnum :=
  match x, y with
  | XRat a, XRat b => XRat (BigQ.red (f a b))
  | _, _ => XNaN
  end.

(** The value of [x ** y] for an exponent that is an integer; zero to a
    negative power has no value. *)
Definition xpow (x y : xnum) : xnum :=
  match x, y with
  | XRat a, XRat e =>
      match BigQ.red e with
      | BigQ.Qz z =>
          if BigQ.eq_bool a 0 && (BigZ.to_Z z <? 0)%Z then XNaN
          else XRat (BigQ.red (BigQ.power a (BigZ.to_Z z)))
      | BigQ.Qq _ _ => XNaN
      end
  | _, _ => XNaN
  end.

Definition xsqrt (x : xnum) : xnum :=
  match x with
  | XRat a => if Qleb 0 a then XSqrt (BigQ.red a) else XNaN
  | _ => XNaN
  end.

Definition xis_zero (x : xnum) : bool :=
  match x with
  | XRat a | XSqrt a => BigQ.eq_bool a 0
  | XNaN => false
  end.

Definition xlt (x y : xnum) : bool :=
  match x, y with
  | XRat a, XRat b => Qltb a b
  | XSqrt a, XRat b => Qltb 0 b && Qltb a (b * b)
  | XRat a, XSqrt b => Qltb a 0 || Qltb (a * a) b
  | XSqrt a, XSqrt b => Qltb a b
  | _, _ => false
  end.

(** [x ** y] raises [ZeroDivisionError] when [x] is zero and [y] is a
    negative integer or half of one: [mpmath] then divides one by a power of
    zero or of its square root. *)
Definition xpow_raises (x y : xnum) : bool :=
  match y with
  | XRat e =>
      xis_zero x && Qltb e 0 &&
      match BigQ.red (2 * e) with
      | BigQ.Qz _ => true
      | BigQ.Qq _ _ => false
      end
  | _ => false
  end.

(** The value of a rational; the roots, which the program only compares
    with [eps], are given none. *)
Definition xvalue (x : xnum) : option Q :=
  match x with
  | XRat a => Some (BigQ.to_Q a)
  | _ => None
  end.

#[global] Instance exact_ops : MpfOps xnum := {|
  mpf_0 := XRat 0;
  mpf_1 := XRat 1;
  mpf_2 := XRat 2;
  mp_add := xlift2 BigQ.add;
  mp_sub := xlift2 BigQ.sub;
  mp_mul := xlift2 BigQ.mul;
  mp_quot := xlift2 BigQ.div;
  mp_pow := xpow;
  mp_pow_raises := xpow_raises;
  mp_sqrt := xsqrt;
  mp_fsum := fun xs => fold_left (xlift2 BigQ.add) xs (XRat 0);
  mp_is_zero := xis_zero;
  mp_lt := xlt;
  mp_value := xvalue
|}.

(** Rationals and matrices of rationals as values of the instance. *)
Definition rat (n : Z) (d : positive) : xnum := XRat (BigQ.red (BigQ.of_Q (n # d))).
Definition rats (m : list (list Q)) : list (list xnum) :=
  map (map (fun q => XRat (BigQ.red (BigQ.of_Q q)))) m.

(** The scenario of [tests/test_fcm.py]. *)
Definition test_X : list (list xnum) :=
  rats [[1; 3]; [2; 5]; [4; 8]; [7; 9]]%Q.
Definition test_u : list (list xnum) :=
  rats [[8 # 10; 7 # 10; 2 # 10; 1 # 10]; [2 # 10; 3 # 10; 8 # 10; 9 # 10]]%Q.

(** Small inputs for the runs below. *)

(** Two points of the plane, three centers, and memberships of two clusters. *)
Definition two_points : list (list xnum) := rats [[0; 1]; [1; 3]]%Q.
Definition three_centers : list (list xnum) := rats [[0; 0]; [1; 1]; [2; 2]]%Q.
Definition two_by_two_u : list (list xnum) := rats [[1 # 2; 1 # 3]; [1 # 2; 2 # 3]]%Q.
Definition other_u : list (list xnum) := rats [[1 # 4; 1]; [3 # 4; 0]]%Q.
Definition other_points : list (list xnum) := rats [[5; 5]; [7; 2]]%Q.

(** Distances of two points to two centers, none of them zero. *)
Definition some_distances : list (list xnum) := rats [[1; 2]; [3; 1]]%Q.

(** One point that lies on the first of two centers. *)
Definition one_point : list (list xnum) := rats [[0]]%Q.
Definition halves : list (list xnum) := rats [[1 # 2]; [1 # 2]]%Q.
Definition coincident_distances : list (list xnum) := rats [[0; 1]]%Q.

(** Two points on a line, each given wholly to its own cluster: the primed
    centers are the points themselves. *)
Definition line_points : list (list xnum) := rats [[0]; [1]]%Q.
Definition crisp_u : list (list xnum) := rats [[1; 0]; [0; 1]]%Q.

(** A membership whose first cluster has no weight. *)
Definition empty_cluster_u : list (list xnum) := rats [[0; 0]; [1; 1]]%Q.
Definition line_points_12 : list (list xnum) := rats [[1]; [2]]%Q.

(** Four points on a line, for a run with the default [mu = 2]: the two
    outer points are given wholly to one cluster each, the two inner points
    half to each. *)
Definition four_points : list (list xnum) := rats [[0]; [2]; [3]; [5]]%Q.
Definition four_points_u : list (list xnum) :=
  rats [[1; 1 # 2; 1 # 2; 0]; [0; 1 # 2; 1 # 2; 1]]%Q.

(** Four points on a line, for a run with [mu = 3]. *)
Definition spread_points : list (list xnum) := rats [[0]; [2]; [5]; [7]]%Q.
Definition alternating_u : list (list xnum) := rats [[1; 0; 1; 0]; [0; 1; 0; 1]]%Q.

(** A point of the plane and a point of space; a center of space. *)
Definition plane_point : list xnum := [rat 0 1; rat 1 1].
Definition space_point : list xnum := [rat 1 1; rat 2 1; rat 3 1].
Definition space_center : list (list xnum) := rats [[0; 0; 0]]%Q.

(** A membership of one row, a matrix of three rows, and a data matrix of
    two rows without columns. *)
Definition one_row_u : list (list xnum) := rats [[1 # 2; 1 # 2]]%Q.
Definition three_rows : list (list xnum) := rats [[1; 0]; [0; 1]; [1; 1]]%Q.
Definition no_columns : list (list xnum) := [[]; []].

(** No matrix is drawn in the runs below: the initial membership is given. *)
Definition no_draw : nat -> nat -> list (list xnum) := fun _ _ => [].

(** Distances of two points to two centers, the second point lying on the
    first center. *)
Definition second_point_coincident : list (list xnum) := rats [[1; 2]; [0; 1]]%Q.


(** * Properties *)

(** [map] of the standard library against [fmap] of stdpp, whose lemmas
    are the ones used below. *)
Ltac map_to_fmap :=
  repeat match goal with
         | |- context [map ?f ?l] => change (map f l) with (f <$> l)
         | H : context [map ?f ?l] |- _ => change (map f l) with (f <$> l) in H
         end.

(** ** The test [math.isclose(x, 1.0)] *)

Section DoublesProperties.

Local Open Scope Q_scope.







End DoublesProperties.

(** ** List comprehensions and loops *)

Section Traverse.

Context {A B : Type}.
Implicit Types (f : A -> result B) (xs : list A) (ys : list B).

Lemma traverse_cons_Ok f x xs b bs :
  f x = Ok b -> traverse f xs = Ok bs -> traverse f (x :: xs) = Ok (b :: bs).
Proof. intros Hx Hxs. simpl. now rewrite Hx, Hxs. Qed.

Lemma traverse_Ok_inv f x xs ys :
  traverse f (x :: xs) = Ok ys ->
  exists b bs, ys = b :: bs /\ f x = Ok b /\ traverse f xs = Ok bs.
Proof.
  simpl. destruct (f x) as [b|e]; [|discriminate].
  destruct (traverse f xs) as [bs|e]; [|discriminate].
  intros [= <-]. eauto.
Qed.

Lemma traverse_length f xs ys : traverse f xs = Ok ys -> length ys = length xs.
Proof.
  revert ys. induction xs as [|x xs IH]; intros ys.
  - now intros [= <-].
  - intros (b & bs & -> & _ & Hbs)%traverse_Ok_inv. simpl. f_equal. auto.
Qed.

Lemma traverse_lookup f xs ys i x :
  traverse f xs = Ok ys -> xs !! i = Some x ->
  exists y, ys !! i = Some y /\ f x = Ok y.
Proof.
  revert ys i. induction xs as [|x0 xs IH]; intros ys i Hys Hi; [done|].
  apply traverse_Ok_inv in Hys as (b & bs & -> & Hb & Hbs).
  destruct i as [|i]; simpl in *.
  - injection Hi as ->. eauto.
  - eauto.
Qed.

(** A comprehension succeeds when each of its elements does. *)
Lemma traverse_total f xs :
  (forall x, x ∈ xs -> exists y, f x = Ok y) -> exists ys, traverse f xs = Ok ys.
Proof.
  induction xs as [|x xs IH]; intros Hall; [now exists []|].
  destruct (Hall x) as [b Hb]; [left|].
  destruct IH as [bs Hbs]; [intros; apply Hall; now right|].
  exists (b :: bs). now apply traverse_cons_Ok.
Qed.

(** The exception of a comprehension is the exception of one element. *)
Lemma traverse_Raise f xs e :
  traverse f xs = Raise e -> exists x, x ∈ xs /\ f x = Raise e.
Proof.
  induction xs as [|x xs IH]; simpl; [discriminate|].
  destruct (f x) as [b|e'] eqn:Hx.
  - destruct (traverse f xs) as [bs|e'']; [discriminate|].
    intros [= ->]. destruct IH as (x' & ? & ?); [done|].
    exists x'. split; [now right|done].
  - intros [= ->]. exists x. split; [left|done].
Qed.

Lemma traverse_Ok_elem f xs ys x :
  traverse f xs = Ok ys -> x ∈ xs -> exists y, f x = Ok y.
Proof.
  intros Hys (i & Hi)%list_elem_of_lookup.
  destruct (traverse_lookup _ _ _ _ _ Hys Hi) as (y & _ & ?). eauto.
Qed.

Lemma traverse_pure (g : A -> B) xs : traverse (fun x => Ok (g x)) xs = Ok (map g xs).
Proof. induction xs as [|x xs IH]; simpl; [done|]. now rewrite IH. Qed.

Lemma traverse_ext f f' xs :
  (forall x, x ∈ xs -> f x = f' x) -> traverse f xs = traverse f' xs.
Proof.
  induction xs as [|x xs IH]; intros Hext; simpl; [done|].
  rewrite (Hext x) by left. rewrite IH; [done|]. intros; apply Hext; now right.
Qed.

Lemma traverse_app f xs1 xs2 :
  traverse f (xs1 ++ xs2) =
  (ys1 ← traverse f xs1; ys2 ← traverse f xs2; Ok (ys1 ++ ys2)).
Proof.
  induction xs1 as [|x xs1 IH]; simpl.
  - unfold mbind, result_bind. now destruct (traverse f xs2).
  - destruct (f x) as [b|e]; [|done]. rewrite IH.
    unfold mbind, result_bind.
    destruct (traverse f xs1) as [bs|e]; [|done].
    now destruct (traverse f xs2).
Qed.

End Traverse.

(** A comprehension with two [for] clauses, flattened, against the nested
    comprehension that yields one row per element of the outer clause. *)
Lemma traverse_product {A B C} (f : A -> B -> result C) (xs : list A) (ys : list B) :
  traverse (fun p => f p.1 p.2) (x ← xs; y ← ys; [(x, y)]) =
  (rows ← traverse (fun x => traverse (f x) ys) xs; Ok (concat rows)).
Proof.
  induction xs as [|x xs IH]; [done|].
  change ((x :: xs) ≫= _) with
    ((ys ≫= (fun y => [(x, y)])) ++ (xs ≫= fun x => ys ≫= fun y => [(x, y)])).
  rewrite traverse_app, IH. simpl.
  assert (traverse (fun p => f p.1 p.2) (ys ≫= (fun y => [(x, y)])) = traverse (f x) ys)
    as ->.
  { clear. induction ys as [|y ys IH]; [done|].
    change (traverse (fun p => f p.1 p.2) ((x, y) :: (ys ≫= (fun y => [(x, y)])))
            = traverse (f x) (y :: ys)).
    simpl. now rewrite IH. }
  unfold mbind, result_bind.
  destruct (traverse (f x) ys) as [row|e]; [|done].
  now destruct (traverse (fun x => traverse (f x) ys) xs).
Qed.

Section Arrays.

Context {num : Type} `{MpfOps num}.
Implicit Types (m rows data centers : matrix num) (row : list num).

(** Cutting the flattened rows of a matrix gives the matrix back. *)
Lemma chunks_concat rows c :
  Forall (fun row => length row = c) rows ->
  chunks (length rows) c (concat rows) = rows.
Proof.
  induction 1 as [|row rows Hrow _ IH]; simpl; [done|].
  rewrite take_app_length', drop_app_length' by done. now rewrite IH.
Qed.

Lemma length_concat_rows rows c :
  Forall (fun row => length row = c) rows -> length (concat rows) = length rows * c.
Proof.
  induction 1 as [|row rows Hrow _ IH]; simpl; [done|].
  rewrite length_app, IH. lia.
Qed.

(** The flat array of a two-clause comprehension, cut into rows of [c]. *)
Lemma reshape_rows rows c :
  0 < c -> Forall (fun row => length row = c) rows ->
  (r ← floordiv (length (concat rows)) c; np_reshape (concat rows) r c) = Ok rows.
Proof.
  intros Hc Hrows. unfold floordiv.
  destruct (Nat.eqb_spec c 0) as [->|_]; [lia|]. simpl.
  rewrite (length_concat_rows _ c) by done.
  rewrite Nat.div_mul by lia.
  unfold np_reshape. rewrite (length_concat_rows _ c), Nat.eqb_refl by done.
  now rewrite chunks_concat.
Qed.

Lemma traverse_rows_length {A B C} (f : A -> B -> result C) xs ys (rows : list (list C)) :
  traverse (fun x => traverse (f x) ys) xs = Ok rows ->
  Forall (fun r => length r = length ys) rows.
Proof.
  revert rows. induction xs as [|x xs IH]; intros rows.
  - intros [= <-]. constructor.
  - intros (b & bs & -> & Hb & Hbs)%traverse_Ok_inv.
    constructor; [now apply traverse_length in Hb|auto].
Qed.

(** Arrays of equal length are combined element by element. *)
Lemma broadcast_same_length {A B C} (f : A -> B -> result C) (x : list A) (y : list B) :
  length x = length y -> broadcast f x y = traverse (fun p => f p.1 p.2) (zip x y).
Proof. intros Hlen. unfold broadcast. now rewrite Hlen, Nat.eqb_refl. Qed.

Lemma np_subtract_same_length (x y : list num) :
  length x = length y -> np_subtract x y = Ok (zip_with mp_sub x y).
Proof.
  intros Hlen. unfold np_subtract. rewrite broadcast_same_length by done.
  rewrite traverse_pure. f_equal. clear Hlen.
  revert y. induction x as [|a x IH]; intros [|b y]; simpl; [done..|]. now rewrite IH.
Qed.

Lemma np_multiply_same_length (x y : list num) :
  length x = length y -> np_multiply x y = Ok (zip_with mp_mul x y).
Proof.
  intros Hlen. unfold np_multiply. rewrite broadcast_same_length by done.
  rewrite traverse_pure. f_equal. clear Hlen.
  revert y. induction x as [|a x IH]; intros [|b y]; simpl; [done..|]. now rewrite IH.
Qed.

(** The squared distance of two points of the same dimension. *)
Lemma calculate_euclidean_distance_same_length (x y : list num) :
  length x = length y ->
  calculate_euclidean_distance x y = Ok (mp_fsum (np_power (zip_with mp_sub x y) mpf_2)).
Proof.
  intros Hlen. unfold calculate_euclidean_distance.
  now rewrite np_subtract_same_length.
Qed.

(** With at least one center, [calculate_distances] is the nested
    comprehension: one row per point, one entry per center. *)
Lemma calculate_distances_rows data centers :
  0 < shape0 centers ->
  calculate_distances data centers =
  traverse (fun x => traverse (calculate_euclidean_distance x) centers) data.
Proof.
  intros HK. unfold calculate_distances.
  rewrite (traverse_product calculate_euclidean_distance).
  destruct (traverse _ data) as [rows|e] eqn:Hrows; [|done].
  simpl. apply reshape_rows; [done|].
  apply (traverse_rows_length _ _ _ _ Hrows).
Qed.

Lemma column_rectangular (k D : nat) m :
  Forall (fun row => length row = D) m -> k < D -> length (column k m) = length m.
Proof.
  intros Hm Hk. unfold column. induction Hm as [|row m Hrow _ IH]; [done|].
  destruct (lookup_lt_is_Some_2 row k) as [x Hx]; [lia|].
  cbn [omap list_omap]. rewrite Hx. cbn [length shape0]. now f_equal.
Qed.

Lemma column_lookup (k : nat) (D : nat) m (i : nat) :
  Forall (fun row => length row = D) m -> k < D ->
  column k m !! i = m !! i ≫= (fun row => row !! k).
Proof.
  intros Hm Hk. unfold column. revert i.
  induction Hm as [|row m Hrow _ IH]; intros i; [done|].
  destruct (lookup_lt_is_Some_2 row k) as [x Hx]; [lia|].
  cbn [omap list_omap]. rewrite Hx.
  destruct i as [|i]; [simpl; congruence|apply IH].
Qed.

End Arrays.

(** ** Distance engine and centroid updater *)

Section Centroids.

Context {num : Type} `{MpfOps num}.
Implicit Types (u data centers distances C : matrix num) (row col : list num) (mu : num).

Lemma fdiv_nonzero (x y : num) : mp_is_zero y = false -> fdiv x y = Ok (mp_quot x y).
Proof. intros Hy. unfold fdiv. now rewrite Hy. Qed.

Lemma fdiv_zero (x y : num) : mp_is_zero y = true -> fdiv x y = Raise ZeroDivisionError.
Proof. intros Hy. unfold fdiv. now rewrite Hy. Qed.

Lemma fdiv_Raise (x y : num) e : fdiv x y = Raise e -> e = ZeroDivisionError.
Proof. unfold fdiv. destruct (mp_is_zero y); congruence. Qed.

Lemma transpose_length data : length (transpose data) = shape1 data.
Proof. unfold transpose. now rewrite length_map, length_seq. Qed.

Lemma transpose_lookup data d :
  d < shape1 data -> transpose data !! d = Some (column d data).
Proof.
  intros Hd. unfold transpose. map_to_fmap.
  rewrite list_lookup_fmap, lookup_seq_lt by done. done.
Qed.

Lemma transpose_elem data col :
  col ∈ transpose data -> exists d, d < shape1 data /\ col = column d data.
Proof.
  unfold transpose. map_to_fmap. intros (d & -> & Hd)%list_elem_of_fmap.
  apply elem_of_seq in Hd. exists d. split; [lia|done].
Qed.

(** With at least one dimension, [update_centroids] is the nested
    comprehension: one row per cluster, one entry per dimension. *)
Lemma update_centroids_rows u data mu :
  0 < shape1 data ->
  update_centroids u data mu =
  traverse (fun row => traverse (centroid_entry mu row) (transpose data)) u.
Proof.
  intros HD. unfold update_centroids.
  rewrite (traverse_product (centroid_entry mu)).
  destruct (traverse _ u) as [rows|e] eqn:Hrows; [|done].
  simpl. rewrite <- (transpose_length data) in *.
  apply reshape_rows; [done|].
  apply (traverse_rows_length _ _ _ _ Hrows).
Qed.

(** A power raises nothing but [ZeroDivisionError]; the powers of an array
    that raise nothing are the values [np_power]. *)
Lemma power_Raise (x y : num) e : power x y = Raise e -> e = ZeroDivisionError.
Proof. unfold power. destruct (mp_pow_raises x y); congruence. Qed.

Lemma array_power_Ok row mu :
  Forall (fun x => mp_pow_raises x mu = false) row ->
  array_power row mu = Ok (np_power row mu).
Proof.
  intros Hrow. unfold array_power.
  rewrite (traverse_ext _ (fun a => Ok (mp_pow a mu))); [apply traverse_pure|].
  intros x Hx. rewrite Forall_forall in Hrow. unfold power. now rewrite (Hrow x Hx).
Qed.

Lemma array_power_Ok_inv row mu w :
  array_power row mu = Ok w ->
  w = np_power row mu /\ Forall (fun x => mp_pow_raises x mu = false) row.
Proof.
  unfold array_power, np_power. revert w.
  induction row as [|x row IH]; intros w.
  - intros [= <-]. split; [done|constructor].
  - intros (b & bs & -> & Hb & Hbs)%traverse_Ok_inv.
    destruct (IH _ Hbs) as [-> Hrow]. unfold power in Hb.
    destruct (mp_pow_raises x mu) eqn:Hx; [done|]. injection Hb as <-.
    split; [done|]. now constructor.
Qed.

Lemma array_power_Raise row mu e : array_power row mu = Raise e -> e = ZeroDivisionError.
Proof. intros (x & _ & Hx)%traverse_Raise. now apply power_Raise in Hx. Qed.

(** One entry of the centroid matrix, for a membership row as long as the
    data has points. *)
Lemma centroid_entry_same_length mu row col :
  length row = length col ->
  centroid_entry mu row col =
  (w ← array_power row mu; fdiv (np_sum (zip_with mp_mul w col)) (np_sum w)).
Proof.
  intros Hlen. unfold centroid_entry.
  destruct (array_power row mu) as [w|e] eqn:Hw; simpl; [|done].
  rewrite np_multiply_same_length; [done|].
  apply traverse_length in Hw. congruence.
Qed.

(** C8: for N points and K >= 1 centers of one dimension D,
    [calculate_distances] returns a matrix of N rows and K columns whose
    entry [i][j] is [calculate_euclidean_distance(data[i], centers[j])], the
    sum of the squared differences of the coordinates; rows follow the order
    of the data and columns the order of the centers. *)
Theorem calculate_distances_entries data centers (D : nat) :
  0 < shape0 centers ->
  Forall (fun row => length row = D) data ->
  Forall (fun row => length row = D) centers ->
  exists distances,
    calculate_distances data centers = Ok distances /\
    shape0 distances = shape0 data /\
    Forall (fun row => length row = shape0 centers) distances /\
    forall i j x c,
      data !! i = Some x -> centers !! j = Some c ->
      exists v,
        distances !! i ≫= (fun row => row !! j) = Some v /\
        calculate_euclidean_distance x c = Ok v /\
        v = mp_fsum (np_power (zip_with mp_sub x c) mpf_2).
Proof.
  intros HK Hdata Hcenters.
  rewrite calculate_distances_rows by done.
  assert (forall x c, x ∈ data -> c ∈ centers ->
            calculate_euclidean_distance x c
            = Ok (mp_fsum (np_power (zip_with mp_sub x c) mpf_2))) as Hdist.
  { intros x c Hx Hc. apply calculate_euclidean_distance_same_length.
    rewrite Forall_forall in Hdata, Hcenters.
    rewrite (Hdata x Hx), (Hcenters c Hc). done. }
  destruct (traverse_total
              (fun x => traverse (calculate_euclidean_distance x) centers) data)
    as [distances Hrows].
  { intros x Hx. apply traverse_total. intros c Hc. rewrite Hdist by done. eauto. }
  exists distances. split; [done|]. split; [|split].
  - unfold shape0. now apply traverse_length in Hrows.
  - apply (traverse_rows_length _ _ _ _ Hrows).
  - intros i j x c Hi Hj.
    destruct (traverse_lookup _ _ _ _ _ Hrows Hi) as (row & Hrow & Hrow').
    destruct (traverse_lookup _ _ _ _ _ Hrow' Hj) as (v & Hv & Hv').
    exists v. rewrite Hrow. simpl. split; [done|]. split; [done|].
    rewrite Hdist in Hv'; [congruence| |]; eapply list_elem_of_lookup_2; eauto.
Qed.

(** C2, as the program has it: for a data matrix of N points and D >= 1
    dimensions and a membership matrix of K rows of N entries, when no power
    [u[i][k]**mu] raises (no membership is zero while [mu] is negative) and
    the weight sums [sum_k u[i][k]**mu] are not zero, [update_centroids]
    returns a matrix of K rows and D columns whose entry [i][d] is
    [sum_k (u[i][k]**mu * data[k][d])] divided by [sum_k u[i][k]**mu]. *)
Theorem update_centroids_weighted_mean u data mu (D : nat) :
  0 < D -> shape1 data = D ->
  Forall (fun row => length row = D) data ->
  Forall (fun row => length row = shape0 data) u ->
  Forall (fun row => Forall (fun x => mp_pow_raises x mu = false) row) u ->
  Forall (fun row => mp_is_zero (np_sum (np_power row mu)) = false) u ->
  exists C,
    update_centroids u data mu = Ok C /\
    shape0 C = shape0 u /\
    Forall (fun row => length row = D) C /\
    forall i d row,
      u !! i = Some row -> d < D ->
      C !! i ≫= (fun crow => crow !! d) =
      Some (mp_quot (np_sum (zip_with mp_mul (np_power row mu) (column d data)))
                    (np_sum (np_power row mu))).
Proof.
  intros HD HD' Hdata Hu Hpow Hw. subst D.
  rewrite update_centroids_rows by done.
  assert (forall row d, row ∈ u -> d < shape1 data ->
            centroid_entry mu row (column d data)
            = Ok (mp_quot (np_sum (zip_with mp_mul (np_power row mu) (column d data)))
                          (np_sum (np_power row mu)))) as Hentry.
  { intros row d Hrow Hd. rewrite Forall_forall in Hu, Hpow, Hw.
    rewrite centroid_entry_same_length.
    - rewrite array_power_Ok by auto. simpl. apply fdiv_nonzero. auto.
    - rewrite (column_rectangular d (shape1 data)) by done. now apply Hu. }
  destruct (traverse_total
              (fun row => traverse (centroid_entry mu row) (transpose data)) u)
    as [C HC].
  { intros row Hrow. apply traverse_total.
    intros col (d & Hd & ->)%transpose_elem. rewrite Hentry by done. eauto. }
  exists C. split; [done|]. split; [|split].
  - unfold shape0. now apply traverse_length in HC.
  - rewrite <- (transpose_length data). apply (traverse_rows_length _ _ _ _ HC).
  - intros i d row Hi Hd.
    destruct (traverse_lookup _ _ _ _ _ HC Hi) as (crow & Hcrow & Hcrow').
    destruct (traverse_lookup _ _ _ _ _ Hcrow' (transpose_lookup data d Hd))
      as (v & Hv & Hv').
    rewrite Hcrow. simpl. rewrite Hv. f_equal.
    rewrite Hentry in Hv'; [congruence| |done].
    eapply list_elem_of_lookup_2; eauto.
Qed.

(** C7, as the program has it: when the weight sum [sum_k u[i][k]**mu] of
    some cluster is zero, [update_centroids] raises [ZeroDivisionError]; it
    returns no matrix. *)
Theorem update_centroids_zero_weight u data mu (i : nat) row :
  Forall (fun r => length r = shape1 data) data ->
  Forall (fun r => length r = shape0 data) u ->
  u !! i = Some row ->
  mp_is_zero (np_sum (np_power row mu)) = true ->
  update_centroids u data mu = Raise ZeroDivisionError.
Proof.
  intros Hdata Hu Hi Hzero.
  destruct (Nat.eq_dec (shape1 data) 0) as [HD|HD].
  - unfold update_centroids.
    rewrite (traverse_product (centroid_entry mu)).
    assert (transpose data = []) as ->.
    { apply length_zero_iff_nil. now rewrite transpose_length. }
    assert (traverse (fun x : list num => traverse (centroid_entry mu x) []) u
            = Ok (map (fun _ => []) u)) as ->.
    { apply (traverse_pure (fun _ : list num => @nil num)). }
    simpl. assert (concat (map (fun _ : list num => @nil num) u) = []) as ->.
    { clear. induction u as [|? ? IH]; [done|]. simpl. exact IH. }
    simpl. unfold floordiv. now rewrite HD.
  - rewrite update_centroids_rows by lia.
    assert (forall r col, r ∈ u -> col ∈ transpose data ->
              length r = length col) as Hlen.
    { intros r col Hr (d & Hd & ->)%transpose_elem.
      rewrite Forall_forall in Hu.
      rewrite (column_rectangular d (shape1 data)) by done. now apply Hu. }
    destruct (traverse _ u) as [C|e] eqn:HC.
    + exfalso.
      destruct (traverse_lookup _ _ _ _ _ HC Hi) as (crow & _ & Hcrow).
      assert (0 < shape1 data) as H0 by lia.
      destruct (traverse_lookup _ _ _ _ _ Hcrow (transpose_lookup data 0 H0))
        as (v & _ & Hv).
      rewrite centroid_entry_same_length in Hv.
      * destruct (array_power row mu) as [w|e] eqn:Hw; simpl in Hv; [|done].
        apply array_power_Ok_inv in Hw as [-> _]. now rewrite fdiv_zero in Hv.
      * apply Hlen; [eapply list_elem_of_lookup_2; eauto|].
        eapply list_elem_of_lookup_2. now apply transpose_lookup.
    + f_equal.
      apply traverse_Raise in HC as (r & Hr & HC).
      apply traverse_Raise in HC as (col & Hcol & HC).
      rewrite centroid_entry_same_length in HC by auto.
      destruct (array_power r mu) as [w|e'] eqn:Hw; simpl in HC.
      * now apply fdiv_Raise in HC.
      * injection HC as <-. now apply array_power_Raise in Hw.
Qed.

End Centroids.

(** ** Loops that update an array in place *)

Lemma for_each_app {S A} (xs1 xs2 : list A) (body : A -> stx S unit) (s : S) :
  for_each (xs1 ++ xs2) body s =
  match for_each xs1 body s with
  | (s', Ok _) => for_each xs2 body s'
  | (s', Raise e) => (s', Raise e)
  end.
Proof.
  revert s. induction xs1 as [|x xs1 IH]; intros s; [done|].
  simpl. unfold mbind, stx_bind.
  destruct (body x s) as [s' [[]|e]]; [apply IH|done].
Qed.

(** Two nested [for] loops visit the pairs of the two ranges in order. *)
Lemma for_each_nested {S A B} (xs : list A) (ys : list B)
    (body : A -> B -> stx S unit) (s : S) :
  for_each xs (fun x => for_each ys (body x)) s =
  for_each (x ← xs; y ← ys; [(x, y)]) (fun p => body p.1 p.2) s.
Proof.
  revert s. induction xs as [|x xs IH]; intros s; [done|].
  change ((x :: xs) ≫= _) with
    ((ys ≫= (fun y => [(x, y)])) ++ (xs ≫= fun x => ys ≫= fun y => [(x, y)])).
  rewrite for_each_app. simpl. unfold mbind at 1, stx_bind at 1.
  assert (forall s0, for_each (ys ≫= (fun y => [(x, y)])) (fun p => body p.1 p.2) s0
                     = for_each ys (body x) s0) as ->.
  { clear. induction ys as [|y ys IH]; intros s0; [done|].
    change (for_each ((x, y) :: (ys ≫= (fun y => [(x, y)]))) (fun p => body p.1 p.2) s0
            = for_each (y :: ys) (body x) s0).
    simpl. unfold mbind, stx_bind. destruct (body x y s0) as [s1 [[]|e]]; [apply IH|done]. }
  destruct (for_each ys (body x) s) as [s' [[]|e]]; [apply IH|done].
Qed.

Lemma elem_of_pairs (N K k i : nat) :
  (k, i) ∈ (k ← seq 0 N; i ← seq 0 K; [(k, i)]) <-> k < N /\ i < K.
Proof.
  rewrite list_elem_of_bind. split.
  - intros (k' & (i' & Hp & Hi)%list_elem_of_bind & Hk).
    apply list_elem_of_singleton in Hp as [= -> ->].
    apply elem_of_seq in Hi, Hk. lia.
  - intros [Hk Hi]. exists k. split; [|apply elem_of_seq; lia].
    apply list_elem_of_bind. exists i. split; [now apply list_elem_of_singleton|].
    apply elem_of_seq; lia.
Qed.

Section Membership.

Context {num : Type} `{MpfOps num}.
Implicit Types (u data distances d : matrix num) (row : list num) (mu : num).

(** *** Writing one entry *)

Lemma entry_Some u i k x :
  entry u i k = Some x <-> exists row, u !! i = Some row /\ row !! k = Some x.
Proof.
  unfold entry. destruct (u !! i) as [row|]; simpl.
  - split; [eauto|]. now intros (? & [= <-] & ?).
  - split; [done|]. now intros (? & ? & ?).
Qed.

(** Whether [u[i][k]] exists depends on the lengths of the rows only. *)
Lemma entry_in_range u i k :
  is_Some (entry u i k) <-> exists n, (length <$> u) !! i = Some n /\ k < n.
Proof.
  rewrite list_lookup_fmap. unfold entry.
  destruct (u !! i) as [row|]; simpl.
  - rewrite lookup_lt_is_Some. split; [eauto|]. now intros (n & [= <-] & ?).
  - split; [now intros [? ?]|]. now intros (? & ? & ?).
Qed.

Lemma entry_None_shape u u' i k :
  length <$> u' = length <$> u -> entry u' i k = None <-> entry u i k = None.
Proof.
  intros Hshape. rewrite !eq_None_not_Some, !entry_in_range. now rewrite Hshape.
Qed.

(** Two matrices with the same row lengths and the same entries are equal. *)
Lemma matrix_ext u u' :
  length <$> u = length <$> u' ->
  (forall i k, entry u i k = entry u' i k) -> u = u'.
Proof.
  intros Hshape Hentries. apply list_eq. intros i.
  pose proof (f_equal (fun l => l !! i) Hshape) as Hi. simpl in Hi.
  rewrite !list_lookup_fmap in Hi.
  specialize (Hentries i). unfold entry in Hentries.
  destruct (u !! i) as [row|], (u' !! i) as [row'|]; simpl in *; try done.
  f_equal. apply list_eq. exact Hentries.
Qed.

Lemma setitem2_spec u i k (v : num) :
  match setitem2 u i k v with
  | (u', Ok _) =>
      entry u' i k = Some v /\
      (forall i' k', (i', k') <> (i, k) -> entry u' i' k' = entry u i' k') /\
      length <$> u' = length <$> u
  | (u', Raise e) => u' = u /\ e = IndexError /\ entry u i k = None
  end.
Proof.
  unfold setitem2, entry.
  destruct (u !! i) as [row|] eqn:Hrow; [|done].
  destruct (decide (k < length row)) as [Hk|Hk].
  - assert (i < length u) as Hi by (now apply lookup_lt_Some in Hrow).
    split; [|split].
    + rewrite list_lookup_insert_eq by done. simpl.
      now rewrite list_lookup_insert_eq.
    + intros i' k' Hne. destruct (decide (i' = i)) as [->|Hi'].
      * rewrite list_lookup_insert_eq, Hrow by done. simpl.
        rewrite list_lookup_insert_ne; [done|congruence].
      * now rewrite list_lookup_insert_ne.
    + rewrite list_fmap_insert, length_insert.
      apply list_insert_id. now rewrite list_lookup_fmap, Hrow.
  - simpl. split; [done|]. split; [done|]. apply lookup_ge_None. lia.
Qed.

(** *** The two loops *)

(** One turn of the loops: the value is computed, then written. *)
Lemma for_each_update_entry d K (e : num) (k i : nat) (ps : list (nat * nat)) u :
  for_each ((k, i) :: ps) (fun p => update_entry d K e p.1 p.2) u =
  match membership_value d K e k i with
  | Ok v => match setitem2 u i k v with
            | (u1, Ok _) => for_each ps (fun p => update_entry d K e p.1 p.2) u1
            | (u1, Raise ex) => (u1, Raise ex)
            end
  | Raise ex => (u, Raise ex)
  end.
Proof.
  simpl. unfold mbind at 1, stx_bind at 1, update_entry at 1.
  unfold mbind at 1, stx_bind at 1, lift.
  destruct (membership_value d K e k i) as [v|ex]; [|done].
  now destruct (setitem2 u i k v) as [u1 [[]|ex]].
Qed.

(** What the loops leave in [u], for any list of (point, cluster) pairs:
    the row lengths are kept; an entry outside the list is kept; when the
    loops end, every pair of the list holds its value; when they are
    interrupted, the exception is that of a value or of a write. *)
Lemma loops_spec d K (e : num) (ps : list (nat * nat)) u u' r :
  for_each ps (fun p => update_entry d K e p.1 p.2) u = (u', r) ->
  length <$> u' = length <$> u /\
  (forall i k, (k, i) ∉ ps -> entry u' i k = entry u i k) /\
  match r with
  | Ok _ => forall k i, (k, i) ∈ ps ->
              exists v, membership_value d K e k i = Ok v /\ entry u' i k = Some v
  | Raise ex => exists k i, (k, i) ∈ ps /\
                  (membership_value d K e k i = Raise ex \/
                   (ex = IndexError /\ entry u i k = None))
  end.
Proof.
  revert u. induction ps as [|[k i] ps IH]; intros u.
  - intros [= <- <-]. split; [done|]. split; [done|]. intros k i Hin. inversion Hin.
  - rewrite for_each_update_entry.
    destruct (membership_value d K e k i) as [v|ex] eqn:Hv.
    + pose proof (setitem2_spec u i k v) as Hset.
      destruct (setitem2 u i k v) as [u1 [[]|ex]].
      * destruct Hset as (Hnew & Hold & Hshape). intros Hrest.
        destruct (IH _ Hrest) as (Hshape' & Hkeep & Hr).
        split; [congruence|]. split.
        { intros i' k' Hnotin. rewrite Hkeep, Hold; [done| |].
          - intros [= -> ->]. apply Hnotin. left.
          - intros Hin. apply Hnotin. now right. }
        destruct r as [[]|ex].
        { intros k' i' Hin. destruct (decide ((k', i') ∈ ps)) as [Hps|Hps]; [auto|].
          apply elem_of_cons in Hin as [[= -> ->]|Hin]; [|done].
          exists v. split; [done|]. now rewrite Hkeep. }
        { destruct Hr as (k' & i' & Hin & Hr). exists k', i'.
          split; [now right|]. destruct Hr as [Hr|[-> Hr]]; [now left|right].
          split; [done|]. now apply (entry_None_shape u u1). }
      * destruct Hset as (-> & -> & Hnone). intros [= <- <-].
        split; [done|]. split; [done|]. exists k, i. split; [left|]. now right.
    + intros [= <- <-]. split; [done|]. split; [done|].
      exists k, i. split; [left|]. now left.
Qed.

(** Whether the loops end, and with which exception, depends on the row
    lengths of [u] and not on its contents. *)
Lemma loops_outcome d K (e : num) (ps : list (nat * nat)) u1 u2 u1' u2' r1 r2 :
  length <$> u1 = length <$> u2 ->
  for_each ps (fun p => update_entry d K e p.1 p.2) u1 = (u1', r1) ->
  for_each ps (fun p => update_entry d K e p.1 p.2) u2 = (u2', r2) ->
  r1 = r2.
Proof.
  revert u1 u2. induction ps as [|[k i] ps IH]; intros u1 u2 Hshape.
  - now intros [= <- <-] [= <- <-].
  - rewrite !for_each_update_entry.
    destruct (membership_value d K e k i) as [v|ex]; [|now intros [= <- <-] [= <- <-]].
    pose proof (setitem2_spec u1 i k v) as Hset1.
    pose proof (setitem2_spec u2 i k v) as Hset2.
    destruct (setitem2 u1 i k v) as [u1a [[]|ex1]], (setitem2 u2 i k v) as [u2a [[]|ex2]].
    + destruct Hset1 as (_ & _ & Hs1), Hset2 as (_ & _ & Hs2).
      apply IH. congruence.
    + exfalso. destruct Hset1 as (Hsome & _ & Hs1), Hset2 as (_ & _ & Hnone).
      apply (entry_None_shape u1 u2) in Hnone; [|done].
      apply (entry_None_shape u1 u1a) in Hnone; [|done]. congruence.
    + exfalso. destruct Hset2 as (Hsome & _ & Hs2), Hset1 as (_ & _ & Hnone).
      apply (entry_None_shape u2 u1) in Hnone; [|done].
      apply (entry_None_shape u2 u2a) in Hnone; [|done]. congruence.
    + destruct Hset1 as (_ & -> & _), Hset2 as (_ & -> & _).
      now intros [= <- <-] [= <- <-].
Qed.

(** Two runs of the loops on matrices of the same row lengths write the
    same values at the same places: afterwards an entry is the same in both
    matrices, or it is in both what it was before. *)
Lemma loops_joint d K (e : num) (ps : list (nat * nat)) u1 u2 u1' u2' r1 r2 :
  length <$> u1 = length <$> u2 ->
  for_each ps (fun p => update_entry d K e p.1 p.2) u1 = (u1', r1) ->
  for_each ps (fun p => update_entry d K e p.1 p.2) u2 = (u2', r2) ->
  forall i k, entry u1' i k = entry u2' i k \/
              (entry u1' i k = entry u1 i k /\ entry u2' i k = entry u2 i k).
Proof.
  revert u1 u2. induction ps as [|[k i] ps IH]; intros u1 u2 Hshape.
  - intros [= <- <-] [= <- <-] i k. now right.
  - rewrite !for_each_update_entry.
    destruct (membership_value d K e k i) as [v|ex];
      [|intros [= <- <-] [= <- <-] i' k'; now right].
    pose proof (setitem2_spec u1 i k v) as Hset1.
    pose proof (setitem2_spec u2 i k v) as Hset2.
    destruct (setitem2 u1 i k v) as [u1a [[]|ex1]], (setitem2 u2 i k v) as [u2a [[]|ex2]].
    + destruct Hset1 as (Hnew1 & Hold1 & Hs1), Hset2 as (Hnew2 & Hold2 & Hs2).
      intros Hrun1 Hrun2 i' k'.
      assert (length <$> u1a = length <$> u2a) as Hshape' by congruence.
      destruct (IH _ _ Hshape' Hrun1 Hrun2 i' k') as [Heq|[Ha Hb]]; [now left|].
      destruct (decide ((i', k') = (i, k))) as [[= -> ->]|Hne].
      * left. congruence.
      * right. rewrite Ha, Hb. split; [now apply Hold1|now apply Hold2].
    + exfalso. destruct Hset1 as (Hsome & _ & Hs1), Hset2 as (_ & _ & Hnone).
      apply (entry_None_shape u1 u2) in Hnone; [|done].
      apply (entry_None_shape u1 u1a) in Hnone; [|done]. congruence.
    + exfalso. destruct Hset2 as (Hsome & _ & Hs2), Hset1 as (_ & _ & Hnone).
      apply (entry_None_shape u2 u1) in Hnone; [|done].
      apply (entry_None_shape u2 u2a) in Hnone; [|done]. congruence.
    + destruct Hset1 as (-> & _ & _), Hset2 as (-> & _ & _).
      intros [= <- <-] [= <- <-] i' k'. now right.
Qed.

End Membership.

(** ** Membership updater *)

Section MembershipUpdate.

Context {num : Type} `{MpfOps num}.
Implicit Types (u data distances d : matrix num) (row : list num) (mu : num).

Lemma update_membership_loops_unfold data d K mu u :
  update_membership_loops data d K mu u =
  match fdiv mpf_2 (mp_sub mu mpf_1) with
  | Ok e => for_each (visits (shape0 data) K) (fun p => update_entry d K e p.1 p.2) u
  | Raise ex => (u, Raise ex)
  end.
Proof.
  unfold update_membership_loops, mbind at 1, stx_bind at 1, lift.
  destruct (fdiv mpf_2 (mp_sub mu mpf_1)) as [e|ex]; [|done].
  apply (for_each_nested _ _ (update_entry d K e)).
Qed.

Lemma update_membership_unfold u data d K mu :
  update_membership u data d K mu =
  match update_membership_loops data d K mu u with
  | (u', Ok _) => (u', __verificar_soma_igual_a_1__ u')
  | (u', Raise ex) => (u', Raise ex)
  end.
Proof.
  unfold update_membership, mbind at 1, stx_bind at 1.
  now destruct (update_membership_loops data d K mu u) as [u' [[]|ex]].
Qed.

(** *** One ratio and one value *)

Lemma razao_unfold d (e : num) k i j x y :
  entry d k i = Some x -> entry d k j = Some y ->
  razao_entre_as_distancias d e k i j = (q ← fdiv x y; Ok (mp_pow q e)).
Proof.
  intros (row & Hrow & Hx)%entry_Some (row' & Hrow' & Hy)%entry_Some.
  assert (row' = row) as -> by congruence.
  unfold razao_entre_as_distancias, index. rewrite Hrow. simpl.
  rewrite Hx. simpl. now rewrite Hy.
Qed.

Lemma razao_Raise d (e : num) k i j ex :
  razao_entre_as_distancias d e k i j = Raise ex ->
  ex = IndexError \/ ex = ZeroDivisionError.
Proof.
  unfold razao_entre_as_distancias, index.
  destruct (d !! k) as [row|]; simpl; [|intros [= <-]; now left].
  destruct (row !! i) as [x|]; simpl; [|intros [= <-]; now left].
  destruct (row !! j) as [y|]; simpl; [|intros [= <-]; now left].
  destruct (fdiv x y) as [q|ex'] eqn:Hq; simpl; [done|].
  intros [= <-]. right. now apply fdiv_Raise in Hq.
Qed.

Lemma membership_value_Raise d K (e : num) k i ex :
  membership_value d K e k i = Raise ex ->
  ex = IndexError \/ ex = ZeroDivisionError.
Proof.
  unfold membership_value.
  destruct (traverse _ (seq 0 K)) as [rs|ex'] eqn:Hrs; simpl.
  - intros ->%fdiv_Raise. now right.
  - intros [= <-]. apply traverse_Raise in Hrs as (j & _ & Hj).
    now apply razao_Raise in Hj.
Qed.

(** With the distances of point [k] in range and not zero, the value is the
    quotient of the rule, provided the sum of the ratios is not zero. *)
Lemma membership_value_rule d K mu k i :
  (forall j, j < K -> exists x, entry d k j = Some x /\ mp_is_zero x = false) ->
  i < K ->
  membership_value d K (mp_quot mpf_2 (mp_sub mu mpf_1)) k i =
  fdiv mpf_1 (sum_of_ratios d K mu k i).
Proof.
  intros Hd Hi. unfold membership_value, sum_of_ratios.
  rewrite (traverse_ext _
             (fun j => Ok (mp_pow (mp_quot (d_at d k i) (d_at d k j))
                                  (mp_quot mpf_2 (mp_sub mu mpf_1))))).
  - now rewrite traverse_pure.
  - intros j Hj%elem_of_seq.
    destruct (Hd i Hi) as (x & Hx & _).
    destruct (Hd j) as (y & Hy & Hy0); [lia|].
    rewrite (razao_unfold _ _ _ _ _ x y), fdiv_nonzero by done.
    unfold d_at. now rewrite Hx, Hy.
Qed.

(** A zero distance of point [k] makes every value of that point fail. *)
Lemma membership_value_zero d K (e : num) k i j x :
  is_Some (entry d k i) -> j < K -> entry d k j = Some x -> mp_is_zero x = true ->
  exists ex, membership_value d K e k i = Raise ex.
Proof.
  intros [y Hy] Hj Hx Hzero. unfold membership_value.
  destruct (traverse _ (seq 0 K)) as [rs|ex] eqn:Hrs; [|simpl; eauto].
  exfalso.
  destruct (traverse_Ok_elem _ _ _ j Hrs) as [v Hv]; [apply elem_of_seq; lia|].
  rewrite (razao_unfold _ _ _ _ _ y x), fdiv_zero in Hv by done. done.
Qed.

(** *** Shapes *)

Lemma shape_replicate u K N :
  length u = K -> Forall (fun row => length row = N) u ->
  length <$> u = replicate K N.
Proof.
  intros <- Hrows. induction Hrows as [|row u Hrow _ IH]; [done|].
  rewrite fmap_cons. cbn [length replicate]. now f_equal.
Qed.

Lemma entry_out_of_shape u K N i k :
  length <$> u = replicate K N -> ~ (k < N /\ i < K) -> entry u i k = None.
Proof.
  intros Hshape Hout. apply eq_None_not_Some. rewrite entry_in_range, Hshape.
  intros (n & [-> Hi]%lookup_replicate & Hk). lia.
Qed.

(** *** The final check *)



Lemma check_outcome u :
  __verificar_soma_igual_a_1__ u = Ok tt \/
  __verificar_soma_igual_a_1__ u = Raise AssertionError.
Proof.
  unfold __verificar_soma_igual_a_1__. destruct (forallb _ _); [now left|now right].
Qed.

(** *** The update *)

(** With the entries of [u] and of the distance matrix in range, the
    distances not zero, [mu - 1] not zero and no sum of ratios zero, the
    loops run to the end. *)
Lemma update_membership_loops_end u data d K mu :
  (forall k i, k < shape0 data -> i < K -> is_Some (entry u i k)) ->
  (forall k j, k < shape0 data -> j < K ->
     exists x, entry d k j = Some x /\ mp_is_zero x = false) ->
  mp_is_zero (mp_sub mu mpf_1) = false ->
  (forall k i, k < shape0 data -> i < K ->
     mp_is_zero (sum_of_ratios d K mu k i) = false) ->
  exists u', update_membership_loops data d K mu u = (u', Ok tt).
Proof.
  intros Hu Hd Hmu Hsum.
  rewrite update_membership_loops_unfold, fdiv_nonzero by done.
  destruct (for_each _ _ u) as [u' r] eqn:Hloops.
  destruct (loops_spec _ _ _ _ _ _ _ Hloops) as (_ & _ & Hr).
  destruct r as [[]|ex]; [eauto|]. exfalso.
  destruct Hr as (k & i & [Hk Hi]%elem_of_pairs & [Hr|[_ Hr]]).
  - rewrite membership_value_rule in Hr; [|intros; now apply Hd|done].
    rewrite fdiv_nonzero in Hr by now apply Hsum. done.
  - destruct (Hu k i Hk Hi) as [? ?]. congruence.
Qed.

(** C1: with the entries of [u] and of the distance matrix in range, the
    distances not zero, [mu - 1] not zero and no sum of ratios zero,
    [update_membership] runs its loops to the end (only the final check may
    still raise) and leaves [1 / sum_j (d[k][i] / d[k][j]) ** (2 / (mu - 1))]
    in [u[i][k]], for every point [k] and every cluster [i]. *)
Theorem update_membership_rule u data d K mu :
  (forall k i, k < shape0 data -> i < K -> is_Some (entry u i k)) ->
  (forall k j, k < shape0 data -> j < K ->
     exists x, entry d k j = Some x /\ mp_is_zero x = false) ->
  mp_is_zero (mp_sub mu mpf_1) = false ->
  (forall k i, k < shape0 data -> i < K ->
     mp_is_zero (sum_of_ratios d K mu k i) = false) ->
  exists u' r,
    update_membership u data d K mu = (u', r) /\
    (r = Ok tt \/ r = Raise AssertionError) /\
    forall k i, k < shape0 data -> i < K ->
      entry u' i k = Some (membership_rule d K mu k i).
Proof.
  intros Hu Hd Hmu Hsum.
  rewrite update_membership_unfold, update_membership_loops_unfold.
  rewrite fdiv_nonzero by done.
  destruct (for_each _ _ u) as [u' r] eqn:Hloops.
  destruct (loops_spec _ _ _ _ _ _ _ Hloops) as (Hshape & _ & Hr).
  assert (forall k i, k < shape0 data -> i < K ->
            membership_value d K (mp_quot mpf_2 (mp_sub mu mpf_1)) k i
            = Ok (membership_rule d K mu k i)) as Hval.
  { intros k i Hk Hi. rewrite membership_value_rule; [|intros; now apply Hd|done].
    apply fdiv_nonzero. now apply Hsum. }
  destruct r as [[]|ex].
  - exists u', (__verificar_soma_igual_a_1__ u'). split; [done|]. split.
    + unfold __verificar_soma_igual_a_1__. destruct (forallb _ _); [now left|now right].
    + intros k i Hk Hi.
      destruct (Hr k i) as (v & Hv & Hentry); [now apply elem_of_pairs|].
      rewrite Hval in Hv by done. congruence.
  - exfalso. destruct Hr as (k & i & [Hk Hi]%elem_of_pairs & [Hr|[_ Hr]]).
    + rewrite Hval in Hr by done. done.
    + destruct (Hu k i Hk Hi) as [? ?]. congruence.
Qed.


(** C5, as the program has it: when [mu - 1] is zero, [update_membership]
    raises [ZeroDivisionError] while computing the exponent [2 / (mu - 1)],
    and the membership matrix is left as it was. *)
Theorem update_membership_mu_one u data d K mu :
  mp_is_zero (mp_sub mu mpf_1) = true ->
  update_membership u data d K mu = (u, Raise ZeroDivisionError).
Proof.
  intros Hmu. rewrite update_membership_unfold, update_membership_loops_unfold.
  now rewrite fdiv_zero.
Qed.

(** C6, as the program has it: when the distance from some point to some
    center is zero, [update_membership] raises [ZeroDivisionError]; the
    point gets no special treatment. *)
Theorem update_membership_zero_distance u data d K mu k j x :
  (forall k i, k < shape0 data -> i < K -> is_Some (entry u i k)) ->
  (forall k j, k < shape0 data -> j < K -> is_Some (entry d k j)) ->
  k < shape0 data -> j < K ->
  entry d k j = Some x -> mp_is_zero x = true ->
  exists u', update_membership u data d K mu = (u', Raise ZeroDivisionError).
Proof.
  intros Hu Hd Hk Hj Hx Hzero.
  rewrite update_membership_unfold, update_membership_loops_unfold.
  destruct (fdiv mpf_2 (mp_sub mu mpf_1)) as [e|ex] eqn:He.
  - destruct (for_each _ _ u) as [u' r] eqn:Hloops.
    destruct (loops_spec _ _ _ _ _ _ _ Hloops) as (_ & _ & Hr).
    destruct r as [[]|ex].
    + exfalso. destruct (Hr k 0) as (v & Hv & _); [apply elem_of_pairs; lia|].
      destruct (membership_value_zero d K e k 0 j x) as [ex Hex]; try done.
      * apply Hd; lia.
      * congruence.
    + exists u'. f_equal. f_equal.
      destruct Hr as (k' & i' & [Hk' Hi']%elem_of_pairs & [Hr|[_ Hr]]).
      * pose proof (membership_value_Raise _ _ _ _ _ _ Hr) as [-> | ->]; [|done].
        exfalso. revert Hr. clear -Hd Hk' Hi'. intros Hr.
        unfold membership_value in Hr.
        destruct (traverse _ (seq 0 K)) as [rs|ex'] eqn:Hrs; simpl in Hr.
        -- now apply fdiv_Raise in Hr.
        -- injection Hr as ->. apply traverse_Raise in Hrs as (j' & Hj'%elem_of_seq & Hrs).
           destruct (Hd k' i') as [a Ha]; [done..|].
           destruct (Hd k' j') as [b Hb]; [done|lia|].
           rewrite (razao_unfold _ _ _ _ _ a b) in Hrs by done.
           destruct (fdiv a b) as [q|ex'] eqn:Hq; simpl in Hrs; [done|].
           apply fdiv_Raise in Hq. subst ex'. discriminate Hrs.
      * destruct (Hu k' i' Hk' Hi') as [? ?]. congruence.
  - exists u. apply fdiv_Raise in He. now subst.
Qed.

(** C10, as the program has it: two calls of [update_membership] with the
    same distances, cluster count and [mu], on membership matrices of the
    shape K x N and on data matrices of N rows, end alike (both return, or
    both raise the same exception), and every entry of the two resulting
    matrices is the same in both or is in both what it was before the call.
    When the loops of the calls have run to the end, as they do when the
    distances are in range and not zero, [mu - 1] is not zero and no sum of
    ratios is zero, every entry has been overwritten with the value computed
    from the distances, the cluster count and [mu], and the two matrices are
    equal.  When the calls raise inside the loops, the entries not yet
    visited keep the contents they had, which may differ. *)
Theorem update_membership_noninterference u1 u2 data1 data2 d K mu (N : nat)
    u1' u2' r1 r2 :
  shape0 data1 = N -> shape0 data2 = N ->
  length u1 = K -> length u2 = K ->
  Forall (fun row => length row = N) u1 ->
  Forall (fun row => length row = N) u2 ->
  update_membership u1 data1 d K mu = (u1', r1) ->
  update_membership u2 data2 d K mu = (u2', r2) ->
  r1 = r2 /\
  (forall i k, entry u1' i k = entry u2' i k \/
               (entry u1' i k = entry u1 i k /\ entry u2' i k = entry u2 i k)) /\
  (r1 = Ok tt \/ r1 = Raise AssertionError ->
   u1' = u2' /\
   forall k i, k < N -> i < K ->
     exists v, membership_value d K (mp_quot mpf_2 (mp_sub mu mpf_1)) k i = Ok v /\
               entry u1' i k = Some v) /\
  ((forall k j, k < N -> j < K ->
      exists x, entry d k j = Some x /\ mp_is_zero x = false) ->
   mp_is_zero (mp_sub mu mpf_1) = false ->
   (forall k i, k < N -> i < K -> mp_is_zero (sum_of_ratios d K mu k i) = false) ->
   r1 = Ok tt \/ r1 = Raise AssertionError).
Proof.
  intros HN1 HN2 HK1 HK2 Hrows1 Hrows2.
  pose proof (shape_replicate _ _ _ HK1 Hrows1) as Hshape1.
  pose proof (shape_replicate _ _ _ HK2 Hrows2) as Hshape2.
  assert (forall k i, k < shape0 data1 -> i < K -> is_Some (entry u1 i k)) as Hin1.
  { intros k i Hk Hi. apply entry_in_range. exists N. rewrite Hshape1.
    split; [now apply lookup_replicate|lia]. }
  intros Hrun1 Hrun2. split_and!.
  - revert Hrun1 Hrun2.
    rewrite !update_membership_unfold, !update_membership_loops_unfold, HN1, HN2.
    destruct (fdiv mpf_2 (mp_sub mu mpf_1)) as [e|ex];
      [|now intros [= <- <-] [= <- <-]].
    destruct (for_each _ _ u1) as [v1 q1] eqn:Hloops1.
    destruct (for_each _ _ u2) as [v2 q2] eqn:Hloops2.
    assert (q1 = q2) as <-.
    { eapply (loops_outcome d K e _ u1 u2); [congruence|done..]. }
    destruct (loops_spec _ _ _ _ _ _ _ Hloops1) as (Hs1 & Hkeep1 & Hr1).
    destruct (loops_spec _ _ _ _ _ _ _ Hloops2) as (Hs2 & Hkeep2 & Hr2).
    destruct q1 as [[]|ex]; [|now intros [= <- <-] [= <- <-]].
    assert (v1 = v2) as ->; [|now intros [= <- <-] [= <- <-]].
    apply matrix_ext; [congruence|]. intros i k.
    destruct (decide (k < N /\ i < K)) as [Hin|Hout].
    + apply elem_of_pairs in Hin.
      destruct (Hr1 k i Hin) as (w1 & Hw1 & ->).
      destruct (Hr2 k i Hin) as (w2 & Hw2 & ->). congruence.
    + rewrite Hkeep1, Hkeep2 by (now rewrite elem_of_pairs).
      rewrite (entry_out_of_shape u1 K N), (entry_out_of_shape u2 K N); done.
  - revert Hrun1 Hrun2.
    rewrite !update_membership_unfold, !update_membership_loops_unfold, HN1, HN2.
    destruct (fdiv mpf_2 (mp_sub mu mpf_1)) as [e|ex];
      [|intros [= <- <-] [= <- <-] i k; now right].
    destruct (for_each _ _ u1) as [v1 q1] eqn:Hloops1.
    destruct (for_each _ _ u2) as [v2 q2] eqn:Hloops2.
    assert (length <$> u1 = length <$> u2) as Hshape by congruence.
    pose proof (loops_joint _ _ _ _ _ _ _ _ _ _ Hshape Hloops1 Hloops2) as Hjoint.
    destruct q1 as [[]|ex1], q2 as [[]|ex2]; now intros [= <- <-] [= <- <-].
  - intros Hr. revert Hrun1 Hrun2.
    rewrite !update_membership_unfold, !update_membership_loops_unfold, HN1, HN2.
    destruct (fdiv mpf_2 (mp_sub mu mpf_1)) as [e|ex] eqn:He.
    2: { intros [= <- <-]. apply fdiv_Raise in He as ->. now destruct Hr. }
    rewrite (fdiv_nonzero mpf_2 (mp_sub mu mpf_1)) in He
      by (unfold fdiv in He; now destruct (mp_is_zero (mp_sub mu mpf_1))).
    injection He as <-.
    destruct (for_each _ _ u1) as [v1 q1] eqn:Hloops1.
    destruct (for_each _ _ u2) as [v2 q2] eqn:Hloops2.
    assert (q1 = q2) as <-.
    { eapply (loops_outcome d K _ _ u1 u2); [congruence|done..]. }
    destruct (loops_spec _ _ _ _ _ _ _ Hloops1) as (Hs1 & Hkeep1 & Hr1).
    destruct (loops_spec _ _ _ _ _ _ _ Hloops2) as (Hs2 & Hkeep2 & Hr2).
    destruct q1 as [[]|ex].
    + intros [= <- <-] [= <- <-]. split.
      * apply matrix_ext; [congruence|]. intros i k.
        destruct (decide (k < N /\ i < K)) as [Hin|Hout].
        -- apply elem_of_pairs in Hin.
           destruct (Hr1 k i Hin) as (w1 & Hw1 & ->).
           destruct (Hr2 k i Hin) as (w2 & Hw2 & ->). congruence.
        -- rewrite Hkeep1, Hkeep2 by (now rewrite elem_of_pairs).
           rewrite (entry_out_of_shape u1 K N), (entry_out_of_shape u2 K N); done.
      * intros k i Hk Hi. apply Hr1. now apply elem_of_pairs.
    + intros [= <- <-]. exfalso.
      destruct Hr1 as (k & i & _ & [Hv|[-> _]]).
      * apply membership_value_Raise in Hv as [-> | ->]; now destruct Hr.
      * now destruct Hr.
  - intros Hd Hmu Hsum. revert Hrun1. rewrite update_membership_unfold.
    assert (exists w, update_membership_loops data1 d K mu u1 = (w, Ok tt)) as [w Hw].
    { apply update_membership_loops_end;
        [exact Hin1|rewrite HN1; exact Hd|exact Hmu|rewrite HN1; exact Hsum]. }
    rewrite Hw. intros [= <- <-]. apply check_outcome.
Qed.

End MembershipUpdate.

(** ** The fit loop *)

Section Fit.

Context {num : Type} `{MpfOps num}.
Implicit Types (self primed final : FCM num).

(** One turn of the [while] loop yields the test result [b] exactly when it
    is a turn of the specification with that test result. *)
Lemma fit_iteration_spec self self' (b : bool) :
  fit_iteration self = (self', Ok b) <->
  spec_turn self self' /\ spec_converged self self' b.
Proof.
  split.
  - unfold fit_iteration, _update_membership, _update_centroids, attr, lift.
    unfold mbind, stx_bind, spec_turn, spec_converged.
    destruct self as [K m e [dat|] [u0|] [c0|]]; simpl; try discriminate.
    destruct (calculate_distances dat c0) as [dist|ex] eqn:Hdist; simpl; [|discriminate].
    destruct (update_membership u0 dat dist K m) as [u1 [[]|ex]] eqn:Hu1;
      simpl; [|discriminate].
    destruct (update_centroids u1 dat m) as [c1|ex] eqn:Hc1; simpl; [|discriminate].
    destruct (matrix_norm u0 u1) as [norm|ex] eqn:Hnorm; simpl; [|discriminate].
    intros [= <- <-]. split.
    + exists dat, u0, c0, dist, u1, c1. done.
    + exists u0, u1, norm. done.
  - intros [(dat & u0 & c0 & dist & u1 & c1 & Hd & Hu & Hc & Hdist & Hu1 & Hc1 & ->)
              (snap & cur & norm & Hs & Hcur & Hnorm & <-)].
    destruct self as [K m e dat' u0' c0']. simpl in *. simplify_eq.
    unfold fit_iteration, _update_membership, _update_centroids, attr, lift.
    unfold mbind, stx_bind. simpl.
    rewrite Hdist. simpl. rewrite Hu1. simpl. rewrite Hc1. simpl.
    now rewrite Hnorm.
Qed.

Lemma fit_loop_spec (fuel : nat) self final :
  fit_loop fuel self = Some (final, Ok tt) -> spec_loop self final.
Proof.
  revert self. induction fuel as [|fuel IH]; intros self; [discriminate|].
  simpl. destruct (fit_iteration self) as [self' [[]|ex]] eqn:Hturn.
  - intros [= <-]. apply fit_iteration_spec in Hturn as [? ?].
    now apply spec_loop_stop.
  - intros Hrest. apply fit_iteration_spec in Hturn as [? ?].
    eapply spec_loop_again; eauto.
  - discriminate.
Qed.

Lemma spec_loop_fit self final :
  spec_loop self final -> exists fuel, fit_loop fuel self = Some (final, Ok tt).
Proof.
  induction 1 as [self self' Hturn Htest|self self' final Hturn Htest _ [fuel IH]].
  - exists 1. simpl.
    now rewrite (proj2 (fit_iteration_spec self self' true) (conj Hturn Htest)).
  - exists (S fuel). simpl.
    now rewrite (proj2 (fit_iteration_spec self self' false) (conj Hturn Htest)).
Qed.

(** More turns allowed do not change a run that has ended. *)
Lemma fit_loop_more_fuel (fuel fuel' : nat) self out :
  fit_loop fuel self = Some out -> fuel <= fuel' -> fit_loop fuel' self = Some out.
Proof.
  revert self fuel'. induction fuel as [|fuel IH]; intros self fuel'; [discriminate|].
  intros Hrun Hle. destruct fuel' as [|fuel']; [lia|].
  simpl in *. destruct (fit_iteration self) as [self' [[]|ex]]; try done.
  apply IH; [done|lia].
Qed.

Lemma to_bigfloat_Ok (m m' : matrix num) :
  to_bigfloat m = Ok m' <-> m' = m /\ concat m <> [].
Proof.
  unfold to_bigfloat. destruct (concat m) as [|x xs]; simpl.
  - split; [discriminate|]. now intros [_ ?].
  - split; [now intros [= <-]|]. now intros [-> _].
Qed.

(** What precedes the loop: conversion of the inputs, then the priming
    centroid update. *)
Lemma fit_prologue_spec draw data_ u_ self primed :
  fit_prologue draw data_ u_ self = (primed, Ok tt) <->
  concat data_ <> [] /\
  exists u0, spec_initial draw data_ u_ self u0 /\ spec_priming data_ u0 self primed.
Proof.
  unfold fit_prologue, _update_centroids, _gerar_inicializacao, attr, lift.
  unfold mbind, stx_bind, spec_initial, spec_priming.
  destruct (to_bigfloat data_) as [d|ex] eqn:Hd; simpl.
  - apply to_bigfloat_Ok in Hd as [-> Hdata].
    destruct u_ as [m|]; simpl.
    + destruct (to_bigfloat m) as [m'|ex] eqn:Hm; simpl.
      * apply to_bigfloat_Ok in Hm as [-> Hm].
        destruct (update_centroids m data_ (mu self)) as [c|ex] eqn:Hc.
        -- split.
           ++ intros [= <-]. split; [done|]. exists m. split; [done|]. now exists c.
           ++ intros (_ & u0 & [-> _] & c' & Hc' & ->). repeat f_equal. congruence.
        -- split; [discriminate|].
           intros (_ & u0 & [-> _] & c' & Hc' & ->). congruence.
      * split; [discriminate|]. intros (_ & u0 & [-> Hne] & _).
        assert (to_bigfloat m = Ok m) as Hm' by now apply to_bigfloat_Ok.
        congruence.
    + destruct (to_bigfloat (draw (n_clusters self) (shape0 data_))) as [m'|ex] eqn:Hm;
        simpl.
      * apply to_bigfloat_Ok in Hm as [-> Hm].
        destruct (update_centroids _ data_ (mu self)) as [c|ex] eqn:Hc.
        -- split.
           ++ intros [= <-]. split; [done|]. eexists. split; [done|]. now exists c.
           ++ intros (_ & u0 & [-> _] & c' & Hc' & ->). repeat f_equal. congruence.
        -- split; [discriminate|].
           intros (_ & u0 & [-> _] & c' & Hc' & ->). congruence.
      * split; [discriminate|]. intros (_ & u0 & [-> Hne] & _).
        assert (to_bigfloat (draw (n_clusters self) (shape0 data_))
                = Ok (draw (n_clusters self) (shape0 data_))) as Hm'
          by now apply to_bigfloat_Ok.
        congruence.
  - split; [discriminate|]. intros (Hne & _).
    assert (to_bigfloat data_ = Ok data_) as Hd' by now apply to_bigfloat_Ok.
    congruence.
Qed.

(** C3: [fit] returns with the state [final] exactly when [final] is reached
    as the specification describes: one centroid update from the initial
    membership first, then turns that each take a snapshot of the
    membership, recompute the distance matrix, update the memberships and
    then the centroids, the last turn being the first one for which the
    Frobenius norm between the snapshot and the new membership is strictly
    less than epsilon. *)
Theorem fit_follows_spec draw data_ u_ self final :
  (exists fuel, fit fuel draw data_ u_ self = Some (final, Ok tt)) <->
  spec_fit draw data_ u_ self final.
Proof.
  unfold fit, spec_fit. split.
  - intros [fuel Hrun].
    destruct (fit_prologue draw data_ u_ self) as [primed [[]|ex]] eqn:Hpro;
      [|discriminate].
    apply fit_prologue_spec in Hpro as (Hne & u0 & Hinit & Hprime).
    split; [done|]. exists u0, primed. split; [done|]. split; [done|].
    now apply (fit_loop_spec fuel).
  - intros (Hne & u0 & primed & Hinit & Hprime & Hloop).
    destruct (spec_loop_fit _ _ Hloop) as [fuel Hrun]. exists fuel.
    assert (fit_prologue draw data_ u_ self = (primed, Ok tt)) as ->; [|done].
    apply fit_prologue_spec. eauto.
Qed.

End Fit.

(** ** Runs on exact arithmetic *)

(** Case analysis on an index bounded by a literal. *)
Ltac below2 k Hk :=
  destruct k as [|[|k]]; [| |exfalso; cbn in Hk; lia].

(** C9: on four points of a line, with the default [mu = 2] and
    [eps = 0.01], the first two turns of the loop of [fit] do not meet the
    stopping test; the objective is below 3.725 after the first turn and
    above 3.752 after the second.  The objective grows from one turn to the
    next. *)
Theorem objective_increases :
  exists s0 s1 s2 j1 j2,
    fit_prologue no_draw four_points (Some four_points_u)
                 (__init__ 2 (rat 2 1) (rat 1 100)) = (s0, Ok tt) /\
    fit_iteration s0 = (s1, Ok false) /\
    fit_iteration s1 = (s2, Ok false) /\
    J s1 = Ok j1 /\ J s2 = Ok j2 /\
    mp_lt j1 (rat 3725 1000) = true /\
    mp_lt (rat 3752 1000) j2 = true /\
    mp_lt j1 j2 = true.
Proof.
  do 5 eexists.
  split; [vm_compute; reflexivity|].
  split; [vm_compute; reflexivity|].
  split; [vm_compute; reflexivity|].
  split; [vm_compute; reflexivity|].
  split; [vm_compute; reflexivity|].
  split; [vm_compute; reflexivity|].
  split; vm_compute; reflexivity.
Qed.

(** The same happens with [mu = 3]: the objective goes from below 3.22
    after the first turn to above 3.51 after the second. *)
Lemma objective_increases_mu_3 :
  exists s0 s1 s2 j1 j2,
    fit_prologue no_draw spread_points (Some alternating_u)
                 (__init__ 2 (rat 3 1) (rat 1 100)) = (s0, Ok tt) /\
    fit_iteration s0 = (s1, Ok false) /\
    fit_iteration s1 = (s2, Ok false) /\
    J s1 = Ok j1 /\ J s2 = Ok j2 /\
    mp_lt j1 (rat 322 100) = true /\
    mp_lt (rat 351 100) j2 = true.
Proof.
  do 5 eexists.
  split; [vm_compute; reflexivity|].
  split; [vm_compute; reflexivity|].
  split; [vm_compute; reflexivity|].
  split; [vm_compute; reflexivity|].
  split; [vm_compute; reflexivity|].
  split; vm_compute; reflexivity.
Qed.

(** C5, against the claim: with [mu = 1] the constructor returns an
    instance, [fit] runs the priming centroid update and then raises
    [ZeroDivisionError], which is not [InvalidFuzziness]; with [mu = 0] the
    run of [fit] on the data of the test returns normally. *)
Lemma fuzziness_is_not_validated :
  (exists s, fit 1 no_draw test_X (Some test_u) (__init__ 2 (rat 1 1) (rat 1 100))
             = Some (s, Raise ZeroDivisionError) /\
             is_Some (centers s) /\
             (Raise ZeroDivisionError : result unit) <> Raise InvalidFuzziness) /\
  (exists s, fit 2 no_draw test_X (Some test_u) (__init__ 2 (rat 0 1) (rat 1 100))
             = Some (s, Ok tt)).
Proof.
  split.
  - eexists. split; [vm_compute; reflexivity|]. split; [vm_compute; eauto|discriminate].
  - eexists. vm_compute. reflexivity.
Qed.

Lemma update_membership_mu_one_witness :
  update_membership two_by_two_u line_points some_distances 2 (rat 1 1)
  = (two_by_two_u, Raise ZeroDivisionError).
Proof.
  apply (update_membership_mu_one two_by_two_u line_points some_distances 2 (rat 1 1)).
  vm_compute. reflexivity.
Defined.

(** C6, against the claim: for one point that lies on the first of two
    centers, [update_membership] raises [ZeroDivisionError] and writes
    nothing, where the claim has the memberships 1 and 0; so does [fit] when
    its primed centers are two of the points. *)
Lemma coincident_point_raises :
  update_membership halves one_point coincident_distances 2 (rat 2 1)
  = (halves, Raise ZeroDivisionError) /\
  exists s, fit 1 no_draw line_points (Some crisp_u) (__init__ 2 (rat 2 1) (rat 1 100))
            = Some (s, Raise ZeroDivisionError).
Proof.
  split; [vm_compute; reflexivity|]. eexists. vm_compute. reflexivity.
Qed.

Lemma update_membership_zero_distance_witness :
  exists u', update_membership halves one_point coincident_distances 2 (rat 2 1)
             = (u', Raise ZeroDivisionError).
Proof.
  apply (update_membership_zero_distance halves one_point coincident_distances 2
           (rat 2 1) 0 0 (XRat 0)).
  - intros k i Hk Hi. destruct k as [|k]; [|exfalso; cbn in Hk; lia].
    below2 i Hi; vm_compute; eauto.
  - intros k j Hk Hj. destruct k as [|k]; [|exfalso; cbn in Hk; lia].
    below2 j Hj; vm_compute; eauto.
  - cbn. lia.
  - lia.
  - vm_compute. reflexivity.
  - vm_compute. reflexivity.
Defined.

(** C2, against the claim: with [mu = -1] and memberships of which some are
    zero, [update_centroids] returns no matrix: the power [0 ** mu] raises
    [ZeroDivisionError]. *)
Lemma negative_fuzziness_raises :
  update_centroids crisp_u line_points (rat (-1) 1) = Raise ZeroDivisionError /\
  forall C, update_centroids crisp_u line_points (rat (-1) 1) <> Ok C.
Proof. split; [vm_compute; reflexivity|]. intros C. vm_compute. discriminate. Qed.

(** C7, against the claim: for a cluster without weight [update_centroids]
    raises [ZeroDivisionError], which is not [DegenerateCluster]. *)
Lemma empty_cluster_raises :
  update_centroids empty_cluster_u line_points_12 (rat 2 1) = Raise ZeroDivisionError /\
  update_centroids empty_cluster_u line_points_12 (rat 2 1) <> Raise DegenerateCluster.
Proof. split; [vm_compute; reflexivity|]. vm_compute. discriminate. Qed.

Lemma update_centroids_zero_weight_witness :
  update_centroids empty_cluster_u line_points_12 (rat 2 1) = Raise ZeroDivisionError.
Proof.
  apply (update_centroids_zero_weight empty_cluster_u line_points_12 (rat 2 1)
           0 [XRat 0; XRat 0]).
  - repeat constructor.
  - repeat constructor.
  - vm_compute. reflexivity.
  - vm_compute. reflexivity.
Defined.

Lemma calculate_distances_entries_witness :
  exists distances,
    calculate_distances two_points three_centers = Ok distances /\
    shape0 distances = shape0 two_points /\
    Forall (fun row => length row = shape0 three_centers) distances /\
    forall i j x c,
      two_points !! i = Some x -> three_centers !! j = Some c ->
      exists v,
        distances !! i ≫= (fun row => row !! j) = Some v /\
        calculate_euclidean_distance x c = Ok v /\
        v = mp_fsum (np_power (zip_with mp_sub x c) mpf_2).
Proof.
  apply (calculate_distances_entries two_points three_centers 2).
  - cbn. lia.
  - repeat constructor.
  - repeat constructor.
Defined.

Lemma update_centroids_weighted_mean_witness :
  exists C,
    update_centroids two_by_two_u two_points (rat 2 1) = Ok C /\
    shape0 C = shape0 two_by_two_u /\
    Forall (fun row => length row = 2) C /\
    forall i d row,
      two_by_two_u !! i = Some row -> d < 2 ->
      C !! i ≫= (fun crow => crow !! d) =
      Some (mp_quot (np_sum (zip_with mp_mul (np_power row (rat 2 1)) (column d two_points)))
                    (np_sum (np_power row (rat 2 1)))).
Proof.
  apply (update_centroids_weighted_mean two_by_two_u two_points (rat 2 1) 2).
  - lia.
  - reflexivity.
  - repeat constructor.
  - repeat constructor.
  - repeat (constructor;
            [repeat (constructor; [vm_compute; reflexivity|]); constructor|]).
    constructor.
  - repeat (constructor; [vm_compute; reflexivity|]). constructor.
Defined.

Lemma update_membership_rule_witness :
  exists u' r,
    update_membership two_by_two_u line_points some_distances 2 (rat 2 1) = (u', r) /\
    (r = Ok tt \/ r = Raise AssertionError) /\
    forall k i, k < shape0 line_points -> i < 2 ->
      entry u' i k = Some (membership_rule some_distances 2 (rat 2 1) k i).
Proof.
  apply (update_membership_rule two_by_two_u line_points some_distances 2 (rat 2 1)).
  - intros k i Hk Hi. below2 k Hk; below2 i Hi; vm_compute; eauto.
  - intros k j Hk Hj.
    below2 k Hk; below2 j Hj; eexists;
      (split; [vm_compute; reflexivity|vm_compute; reflexivity]).
  - vm_compute. reflexivity.
  - intros k i Hk Hi. below2 k Hk; below2 i Hi; vm_compute; reflexivity.
Defined.



(** C10, against the claim: when the second of two points lies on the
    first center, both calls raise [ZeroDivisionError] at that point, after
    the column of the first point has been written; the column of the second
    point is left as it was, 1/3 and 2/3 in one matrix, 1 and 0 in the
    other. *)
Lemma update_membership_interference :
  update_membership two_by_two_u line_points second_point_coincident 2 (rat 2 1)
  = (rats [[4 # 5; 1 # 3]; [1 # 5; 2 # 3]]%Q, Raise ZeroDivisionError) /\
  update_membership other_u other_points second_point_coincident 2 (rat 2 1)
  = (rats [[4 # 5; 1]; [1 # 5; 0]]%Q, Raise ZeroDivisionError) /\
  rats [[4 # 5; 1 # 3]; [1 # 5; 2 # 3]]%Q <> rats [[4 # 5; 1]; [1 # 5; 0]]%Q.
Proof.
  split; [vm_compute; reflexivity|]. split; [vm_compute; reflexivity|].
  vm_compute. discriminate.
Qed.

Lemma update_membership_noninterference_witness :
  exists u1' u2' r1 r2,
    update_membership two_by_two_u line_points some_distances 2 (rat 2 1) = (u1', r1) /\
    update_membership other_u other_points some_distances 2 (rat 2 1) = (u2', r2) /\
    r1 = r2 /\
    (forall i k, entry u1' i k = entry u2' i k \/
                 (entry u1' i k = entry two_by_two_u i k /\
                  entry u2' i k = entry other_u i k)) /\
    (r1 = Ok tt \/ r1 = Raise AssertionError ->
     u1' = u2' /\
     forall k i, k < 2 -> i < 2 ->
       exists v, membership_value some_distances 2
                   (mp_quot mpf_2 (mp_sub (rat 2 1) mpf_1)) k i = Ok v /\
                 entry u1' i k = Some v) /\
    ((forall k j, k < 2 -> j < 2 ->
        exists x, entry some_distances k j = Some x /\ mp_is_zero x = false) ->
     mp_is_zero (mp_sub (rat 2 1) mpf_1) = false ->
     (forall k i, k < 2 -> i < 2 ->
        mp_is_zero (sum_of_ratios some_distances 2 (rat 2 1) k i) = false) ->
     r1 = Ok tt \/ r1 = Raise AssertionError).
Proof.
  eexists _, _, _, _.
  split; [vm_compute; reflexivity|]. split; [vm_compute; reflexivity|].
  apply (update_membership_noninterference two_by_two_u other_u line_points other_points
           some_distances 2 (rat 2 1) 2).
  - reflexivity.
  - reflexivity.
  - reflexivity.
  - reflexivity.
  - repeat constructor.
  - repeat constructor.
  - vm_compute. reflexivity.
  - vm_compute. reflexivity.
Defined.

Lemma fit_follows_spec_witness :
  exists final,
    spec_fit no_draw test_X (Some test_u) (__init__ 2 (rat 2 1) (rat 1 1)) final.
Proof.
  eexists.
  apply (fit_follows_spec no_draw test_X (Some test_u) (__init__ 2 (rat 2 1) (rat 1 1))).
  exists 1. vm_compute. reflexivity.
Defined.

(** * Further properties of the program *)

(** ** Distance engine: shapes that do not fit *)

Section DistanceEngine.

Context {num : Type} `{MpfOps num}.
Implicit Types (x y : list num) (data centers : matrix num).

(** The only exception of an element-wise subtraction is that of shapes
    that cannot be broadcast. *)
Lemma np_subtract_Raise x y e : np_subtract x y = Raise e -> e = ValueError.
Proof.
  unfold np_subtract, broadcast.
  destruct (length x =? length y).
  - now rewrite (traverse_pure (fun p => mp_sub p.1 p.2)).
  - destruct x as [|a [|a' x]], y as [|b [|b' y]];
      rewrite ?(traverse_pure (fun b0 => mp_sub a b0)),
              ?(traverse_pure (fun a0 => mp_sub a0 b)); simpl; congruence.
Qed.

Lemma calculate_euclidean_distance_Raise x y e :
  calculate_euclidean_distance x y = Raise e -> e = ValueError.
Proof.
  unfold calculate_euclidean_distance.
  destruct (np_subtract x y) as [d|e'] eqn:Hd; simpl; [done|].
  intros [= <-]. now apply np_subtract_Raise in Hd.
Qed.

(** X1: two points whose lengths differ, neither of them of length one,
    have no distance: the subtraction raises [ValueError]. *)
Theorem calculate_euclidean_distance_mismatch x y :
  length x <> length y -> length x <> 1 -> length y <> 1 ->
  calculate_euclidean_distance x y = Raise ValueError.
Proof.
  intros Hxy Hx Hy. unfold calculate_euclidean_distance, np_subtract, broadcast.
  destruct (Nat.eqb_spec (length x) (length y)) as [|_]; [done|].
  destruct x as [|a [|a' x]], y as [|b [|b' y]]; simpl in *; done.
Qed.

(** X2: the distance is symmetric as soon as the square of a difference
    is: when [(a - b) ** 2] and [(b - a) ** 2] are the same number for the
    coordinates [a] of [x] and [b] of [y], the two calls agree, in their
    value and in their exception. *)
Theorem calculate_euclidean_distance_symmetric x y :
  (forall a b, a ∈ x -> b ∈ y ->
     mp_pow (mp_sub a b) mpf_2 = mp_pow (mp_sub b a) mpf_2) ->
  calculate_euclidean_distance x y = calculate_euclidean_distance y x.
Proof.
  intros Hsq. unfold calculate_euclidean_distance.
  destruct (Nat.eq_dec (length x) (length y)) as [Hlen|Hlen].
  - rewrite !np_subtract_same_length by done. simpl. do 2 f_equal.
    revert y Hlen Hsq. induction x as [|a x IH]; intros [|b y] Hlen Hsq;
      simpl in *; [done..|].
    f_equal.
    + apply Hsq; left.
    + apply IH; [lia|]. intros a' b' Ha Hb. apply Hsq; now right.
  - unfold np_subtract, broadcast.
    destruct (Nat.eqb_spec (length x) (length y)) as [|_]; [done|].
    destruct (Nat.eqb_spec (length y) (length x)) as [|_]; [done|].
    destruct x as [|a [|a' x]], y as [|b [|b' y]]; simpl in Hlen; try done.
    + rewrite (traverse_pure (fun b0 => mp_sub a b0)),
              (traverse_pure (fun b0 => mp_sub b0 a)).
      unfold mbind, result_bind, np_power. do 2 f_equal. rewrite !map_map.
      apply map_ext_in. intros b0 Hb0%list_elem_of_In. apply Hsq; [left|done].
    + rewrite (traverse_pure (fun a0 => mp_sub a0 b)),
              (traverse_pure (fun a0 => mp_sub b a0)).
      unfold mbind, result_bind, np_power. do 2 f_equal. rewrite !map_map.
      apply map_ext_in. intros a0 Ha0%list_elem_of_In. apply Hsq; [done|left].
Qed.

Lemma bind_no_inner {A B} (xs : list A) :
  (x ← xs; y ← @nil B; [(x, y)]) = [].
Proof. induction xs as [|x xs IH]; [done|]. exact IH. Qed.

(** X3: without centers [calculate_distances] raises [ZeroDivisionError],
    whatever the data: the number of rows is computed by a division by
    [centers.shape[0]]. *)
Theorem calculate_distances_no_centers data :
  calculate_distances data [] = Raise ZeroDivisionError.
Proof. unfold calculate_distances. now rewrite bind_no_inner. Qed.

(** X4: when some point and some center differ in length, neither of the
    two being of length one, [calculate_distances] raises [ValueError]. *)
Theorem calculate_distances_mismatch data centers (i j : nat) x c :
  data !! i = Some x -> centers !! j = Some c ->
  length x <> length c -> length x <> 1 -> length c <> 1 ->
  calculate_distances data centers = Raise ValueError.
Proof.
  intros Hi Hj Hxc Hx Hc.
  rewrite calculate_distances_rows by (apply lookup_lt_Some in Hj; exact (Nat.le_lt_trans _ _ _ (Nat.le_0_l j) Hj)).
  destruct (traverse _ data) as [rows|e] eqn:Hrows.
  - exfalso.
    destruct (traverse_lookup _ _ _ _ _ Hrows Hi) as (row & _ & Hrow).
    destruct (traverse_lookup _ _ _ _ _ Hrow Hj) as (v & _ & Hv).
    now rewrite calculate_euclidean_distance_mismatch in Hv.
  - f_equal. apply traverse_Raise in Hrows as (x' & _ & Hrows).
    apply traverse_Raise in Hrows as (c' & _ & Hrows).
    now apply calculate_euclidean_distance_Raise in Hrows.
Qed.

Lemma np_subtract2_same_shape (a b : matrix num) :
  Forall2 (fun r r' => length r = length r') a b ->
  np_subtract2 a b = Ok (zip_with (zip_with mp_sub) a b).
Proof.
  intros Hshape. unfold np_subtract2.
  rewrite broadcast_same_length by (now apply Forall2_length in Hshape).
  induction Hshape as [|r r' a b Hr _ IH]; [done|].
  simpl. rewrite np_subtract_same_length by done. now rewrite IH.
Qed.

(** X5: for two matrices of the same shape [matrix_norm] raises nothing and
    returns the square root of the sum, taken row after row, of the squared
    differences of the entries. *)
Theorem matrix_norm_same_shape (a b : matrix num) :
  Forall2 (fun r r' => length r = length r') a b ->
  matrix_norm a b =
  Ok (mp_sqrt (np_sum (concat (zip_with (fun r r' =>
        map (fun p => mp_pow (mp_sub p.1 p.2) mpf_2) (zip r r')) a b)))).
Proof.
  intros Hshape. unfold matrix_norm. rewrite np_subtract2_same_shape by done.
  simpl. do 3 f_equal. clear Hshape.
  revert b. induction a as [|r a IH]; intros [|r' b]; simpl; [done..|].
  rewrite IH. f_equal. unfold np_power.
  clear. revert r'. induction r as [|x r IH]; intros [|y r']; simpl; [done..|].
  now rewrite IH.
Qed.

End DistanceEngine.

(** ** Membership updater: what is written and what is not *)

Section MembershipFrame.

Context {num : Type} `{MpfOps num}.
Implicit Types (u data distances d : matrix num) (mu : num).

Lemma visits_nil (N K : nat) : N = 0 \/ K = 0 -> visits N K = [].
Proof.
  intros Hzero. destruct (visits N K) as [|[k i] ps] eqn:Hps; [done|].
  assert ((k, i) ∈ visits N K) as Hin%elem_of_pairs by (rewrite Hps; left). lia.
Qed.

(** The loops keep the row lengths of [u] and every entry outside the
    first [n_clusters] rows and the first [data.shape[0]] columns. *)
Lemma update_membership_loops_frame data d K mu u u' r :
  update_membership_loops data d K mu u = (u', r) ->
  length <$> u' = length <$> u /\
  forall i k, ~ (k < shape0 data /\ i < K) -> entry u' i k = entry u i k.
Proof.
  rewrite update_membership_loops_unfold.
  destruct (fdiv mpf_2 (mp_sub mu mpf_1)) as [e|ex]; [|now intros [= <- <-]].
  intros Hloops. destruct (loops_spec _ _ _ _ _ _ _ Hloops) as (Hshape & Hkeep & _).
  split; [done|]. intros i k Hout. apply Hkeep. now rewrite elem_of_pairs.
Qed.

Lemma update_membership_loops_Raise data d K mu u u' e :
  update_membership_loops data d K mu u = (u', Raise e) ->
  e = ZeroDivisionError \/ e = IndexError.
Proof.
  rewrite update_membership_loops_unfold.
  destruct (fdiv mpf_2 (mp_sub mu mpf_1)) as [ex|ex] eqn:Hex.
  - intros Hloops. destruct (loops_spec _ _ _ _ _ _ _ Hloops) as (_ & _ & Hr).
    destruct Hr as (k & i & _ & [Hr|[-> _]]); [|now right].
    apply membership_value_Raise in Hr as [-> | ->]; [now right|now left].
  - intros [= <- <-]. left. now apply fdiv_Raise in Hex.
Qed.

(** X6: whatever its outcome, [update_membership] keeps the length of
    every row of [u] and writes no entry outside the rows below
    [n_clusters] and the columns below [data.shape[0]]: further rows and
    columns of [u] keep their contents. *)
Theorem update_membership_frame u data d K mu u' r :
  update_membership u data d K mu = (u', r) ->
  length <$> u' = length <$> u /\
  forall i k, ~ (k < shape0 data /\ i < K) -> entry u' i k = entry u i k.
Proof.
  rewrite update_membership_unfold.
  destruct (update_membership_loops data d K mu u) as [u1 [[]|ex]] eqn:Hloops;
    intros [= <- <-]; now apply update_membership_loops_frame in Hloops.
Qed.

(** X7: without points or without clusters, and with [mu - 1] not zero,
    [update_membership] writes nothing: it only checks the column sums of
    [u] as it stands. *)
Theorem update_membership_nothing_to_update u data d K mu :
  shape0 data = 0 \/ K = 0 ->
  mp_is_zero (mp_sub mu mpf_1) = false ->
  update_membership u data d K mu = (u, __verificar_soma_igual_a_1__ u).
Proof.
  intros Hzero Hmu.
  rewrite update_membership_unfold, update_membership_loops_unfold.
  rewrite fdiv_nonzero by done. now rewrite visits_nil.
Qed.

(** X8: when the distances are in range and not zero, [mu - 1] is not zero
    and no sum of ratios is zero, but [u] has no entry for some point and
    cluster (it has too few rows or columns), [update_membership] raises
    [IndexError]. *)
Theorem update_membership_u_too_small u data d K mu (k i : nat) :
  (forall k j, k < shape0 data -> j < K ->
     exists x, entry d k j = Some x /\ mp_is_zero x = false) ->
  mp_is_zero (mp_sub mu mpf_1) = false ->
  (forall k i, k < shape0 data -> i < K ->
     mp_is_zero (sum_of_ratios d K mu k i) = false) ->
  k < shape0 data -> i < K -> entry u i k = None ->
  exists u', update_membership u data d K mu = (u', Raise IndexError).
Proof.
  intros Hd Hmu Hsum Hk Hi Hnone.
  rewrite update_membership_unfold, update_membership_loops_unfold.
  rewrite fdiv_nonzero by done.
  destruct (for_each _ _ u) as [u' r] eqn:Hloops.
  destruct (loops_spec _ _ _ _ _ _ _ Hloops) as (Hshape & _ & Hr).
  destruct r as [[]|ex].
  - exfalso. destruct (Hr k i) as (v & _ & Hv); [now apply elem_of_pairs|].
    apply (entry_None_shape u u') in Hnone; [|done]. congruence.
  - exists u'. do 2 f_equal.
    destruct Hr as (k' & i' & [Hk' Hi']%elem_of_pairs & [Hr|[-> _]]); [|done].
    exfalso. rewrite membership_value_rule in Hr; [|intros; now apply Hd|done].
    rewrite fdiv_nonzero in Hr by now apply Hsum. done.
Qed.

End MembershipFrame.

(** ** Centroid updater and objective: edges *)

Section CentroidsObjective.

Context {num : Type} `{MpfOps num}.
Implicit Types (u data centers : matrix num) (mu : num).

Lemma np_multiply_Raise (x y : list num) e : np_multiply x y = Raise e -> e = ValueError.
Proof.
  unfold np_multiply, broadcast.
  destruct (length x =? length y).
  - now rewrite (traverse_pure (fun p => mp_mul p.1 p.2)).
  - destruct x as [|a [|a' x]], y as [|b [|b' y]];
      rewrite ?(traverse_pure (fun b0 => mp_mul a b0)),
              ?(traverse_pure (fun a0 => mp_mul a0 b)); simpl; congruence.
Qed.

Lemma np_reshape_Raise (xs : list num) (r c : nat) e :
  np_reshape xs r c = Raise e -> e = ValueError.
Proof. unfold np_reshape. destruct (r * c =? length xs); congruence. Qed.

Lemma floordiv_Raise (a b : nat) e : floordiv a b = Raise e -> e = ZeroDivisionError.
Proof. unfold floordiv. destruct (b =? 0); congruence. Qed.

(** The exceptions of the centroid update and of the distance matrix. *)
Lemma update_centroids_Raise u data mu e :
  update_centroids u data mu = Raise e -> e = ValueError \/ e = ZeroDivisionError.
Proof.
  unfold update_centroids.
  destruct (traverse _ _) as [C|e'] eqn:HC; simpl.
  - destruct (floordiv _ _) as [r|e''] eqn:Hr; simpl.
    + intros ->%np_reshape_Raise. now left.
    + intros [= <-]. right. now apply floordiv_Raise in Hr.
  - intros [= <-]. apply traverse_Raise in HC as ([row col] & _ & HC).
    unfold centroid_entry in HC. simpl in HC.
    destruct (array_power row mu) as [w|e1] eqn:Hw; simpl in HC.
    2: { injection HC as <-. right. now apply array_power_Raise in Hw. }
    destruct (np_multiply w col) as [prod|e2] eqn:Hprod; simpl in HC.
    + right. now apply fdiv_Raise in HC.
    + apply np_multiply_Raise in Hprod. left. congruence.
Qed.

Lemma calculate_distances_Raise data centers e :
  calculate_distances data centers = Raise e -> e = ValueError \/ e = ZeroDivisionError.
Proof.
  unfold calculate_distances.
  destruct (traverse _ _) as [ds|e'] eqn:Hds; simpl.
  - destruct (floordiv _ _) as [r|e''] eqn:Hr; simpl.
    + intros ->%np_reshape_Raise. now left.
    + intros [= <-]. right. now apply floordiv_Raise in Hr.
  - intros [= <-]. apply traverse_Raise in Hds as ([x c] & _ & Hds).
    left. now apply calculate_euclidean_distance_Raise in Hds.
Qed.

Lemma matrix_norm_Raise (a b : matrix num) e : matrix_norm a b = Raise e -> e = ValueError.
Proof.
  unfold matrix_norm. destruct (np_subtract2 a b) as [d|e'] eqn:Hd; simpl; [done|].
  intros [= <-]. unfold np_subtract2, broadcast in Hd.
  destruct (length a =? length b).
  - apply traverse_Raise in Hd as (p & _ & Hd). now apply np_subtract_Raise in Hd.
  - destruct a as [|r [|r' a]], b as [|s [|s' b]]; try (simpl in Hd; congruence);
      apply traverse_Raise in Hd as (p & _ & Hd); now apply np_subtract_Raise in Hd.
Qed.

(** X9: for a data matrix that has rows but no columns, [update_centroids]
    raises [ZeroDivisionError]: the number of rows of the result is computed
    by a division by [data.shape[1]]. *)
Theorem update_centroids_no_dimension u data mu :
  data <> [] -> shape1 data = 0 ->
  update_centroids u data mu = Raise ZeroDivisionError.
Proof.
  intros _ HD. unfold update_centroids.
  rewrite (traverse_product (centroid_entry mu)).
  assert (transpose data = []) as ->.
  { apply length_zero_iff_nil. now rewrite transpose_length. }
  rewrite (traverse_pure (fun _ : list num => @nil num)). simpl.
  assert (concat (map (fun _ : list num => @nil num) u) = []) as ->.
  { clear. induction u as [|? ? IH]; [done|]. exact IH. }
  simpl. unfold floordiv. now rewrite HD.
Qed.

(** A loop that accumulates a result and whose turns all succeed. *)
Lemma foldl_all_Ok {A B} (F : result B -> A -> result B) (G : B -> A -> B)
    (xs : list A) (t : B) :
  (forall x t', x ∈ xs -> F (Ok t') x = Ok (G t' x)) ->
  foldl F (Ok t) xs = Ok (foldl G t xs).
Proof.
  revert t. induction xs as [|x xs IH]; intros t HF; [done|].
  simpl. rewrite HF by left. apply IH. intros; apply HF. now right.
Qed.

Lemma elem_of_enumerated_pairs {A B} (xs : list A) (ys : list B) (p : nat * A * (nat * B)) :
  p ∈ (ix ← imap pair xs; jy ← imap pair ys; [(ix, jy)]) ->
  xs !! p.1.1 = Some p.1.2 /\ ys !! p.2.1 = Some p.2.2.
Proof.
  intros (ix & (jy & ->%list_elem_of_singleton & Hjy)%list_elem_of_bind & Hix)%list_elem_of_bind.
  apply list_elem_of_lookup in Hix as (n & (x & Hx & ->)%list_lookup_imap_Some).
  apply list_elem_of_lookup in Hjy as (m & (y & Hy & ->)%list_lookup_imap_Some).
  done.
Qed.

(** X10: for points and centers of one dimension and a membership matrix
    that has an entry for every center and point, none of which makes the
    power [u[j][i] ** mu] raise (no membership is zero while [mu] is
    negative), [mmg] raises nothing and returns the sum, accumulated from
    [mpf(0)] point after point and, for each point, center after center, of
    the squared distance between the center and the point times
    [u[j][i] ** mu]. *)
Theorem mmg_sum u data centers mu (D : nat) :
  Forall (fun row => length row = D) data ->
  Forall (fun row => length row = D) centers ->
  (forall i j, i < shape0 data -> j < shape0 centers ->
     exists v, entry u j i = Some v /\ mp_pow_raises v mu = false) ->
  mmg u data centers mu =
  Ok (foldl (fun total (p : nat * list num * (nat * list num)) =>
               mp_add total
                 (mp_mul (mp_fsum (np_power (zip_with mp_sub p.2.2 p.1.2) mpf_2))
                         (mp_pow (d_at u p.2.1 p.1.1) mu)))
            mpf_0
            (id ← imap pair data; jc ← imap pair centers; [(id, jc)])).
Proof.
  intros Hdata Hcenters Hu. unfold mmg. apply foldl_all_Ok.
  intros [[i d] [j c]] total [Hi Hj]%elem_of_enumerated_pairs. simpl in *.
  rewrite calculate_euclidean_distance_same_length.
  - destruct (Hu i j) as (v & Hv & Hpow).
    + now apply lookup_lt_Some in Hi.
    + now apply lookup_lt_Some in Hj.
    + unfold d_at. rewrite Hv. apply entry_Some in Hv as (row & Hrow & Hv).
      unfold index. rewrite Hrow. simpl. rewrite Hv. simpl.
      unfold power. now rewrite Hpow.
  - rewrite Forall_forall in Hdata, Hcenters.
    rewrite (Hdata d), (Hcenters c); [done|..]; eapply list_elem_of_lookup_2; eauto.
Qed.

(** X11: without points, and without centers, the objective is [mpf(0)]. *)
Theorem mmg_empty u data centers mu :
  mmg u [] centers mu = Ok mpf_0 /\ mmg u data [] mu = Ok mpf_0.
Proof.
  split; [done|]. unfold mmg.
  assert ((id ← imap pair data; jc ← imap pair (@nil (list num)); [(id, jc)]) = [])
    as ->; [|done].
  generalize (imap pair data). intros l. induction l as [|x l IH]; [done|]. exact IH.
Qed.

End CentroidsObjective.

(** ** The fit run: what it keeps and how it fails *)

Section FitRun.

Context {num : Type} `{MpfOps num}.
Implicit Types (self primed final : FCM num).

(** One turn from a state whose three arrays exist: the configuration and
    the data are kept, the membership keeps its row lengths, the centers
    still exist, and an exception is one of four. *)
Lemma fit_iteration_outcome self self' r dat u0 c0 :
  data self = Some dat -> u self = Some u0 -> centers self = Some c0 ->
  fit_iteration self = (self', r) ->
  n_clusters self' = n_clusters self /\ mu self' = mu self /\ eps self' = eps self /\
  data self' = Some dat /\
  (exists u1, u self' = Some u1 /\ length <$> u1 = length <$> u0) /\
  is_Some (centers self') /\
  (forall e, r = Raise e -> fit_exception e).
Proof.
  destruct self as [K m ep dat' u0' c0']. simpl. intros -> -> ->.
  unfold fit_iteration, _update_membership, _update_centroids, attr, lift.
  unfold mbind, stx_bind. simpl.
  destruct (calculate_distances dat c0) as [dist|ex] eqn:Hdist; simpl.
  2: { intros [= <- <-]. simpl. repeat split; eauto.
       intros e [= <-]. apply calculate_distances_Raise in Hdist. tauto. }
  rewrite update_membership_unfold.
  destruct (update_membership_loops dat dist K m u0) as [u1 [[]|ex]] eqn:Hloops; simpl.
  2: { intros [= <- <-]. simpl.
       apply update_membership_loops_frame in Hloops as Hframe. destruct Hframe as [Hshape _].
       repeat split; eauto.
       intros e [= <-]. apply update_membership_loops_Raise in Hloops. tauto. }
  apply update_membership_loops_frame in Hloops as [Hshape _].
  unfold __verificar_soma_igual_a_1__.
  destruct (forallb isclose_1 (np_sum_axis0 u1)); simpl.
  2: { intros [= <- <-]. simpl. repeat split; eauto. intros e [= <-]. tauto. }
  destruct (update_centroids u1 dat m) as [c1|ex] eqn:Hc1; simpl.
  2: { intros [= <- <-]. simpl. repeat split; eauto.
       intros e [= <-]. apply update_centroids_Raise in Hc1. tauto. }
  destruct (matrix_norm u0 u1) as [norm|ex] eqn:Hnorm; simpl.
  - intros [= <- <-]. simpl. repeat split; eauto. intros e [=].
  - intros [= <- <-]. simpl. repeat split; eauto.
    intros e [= <-]. apply matrix_norm_Raise in Hnorm. tauto.
Qed.

Lemma fit_loop_outcome (fuel : nat) self final r dat u0 c0 :
  data self = Some dat -> u self = Some u0 -> centers self = Some c0 ->
  fit_loop fuel self = Some (final, r) ->
  n_clusters final = n_clusters self /\ mu final = mu self /\ eps final = eps self /\
  data final = Some dat /\
  (exists u1, u final = Some u1 /\ length <$> u1 = length <$> u0) /\
  (forall e, r = Raise e -> fit_exception e).
Proof.
  revert self u0 c0. induction fuel as [|fuel IH]; intros self u0 c0 Hd Hu Hc; [done|].
  simpl. destruct (fit_iteration self) as [self' r'] eqn:Hturn.
  destruct (fit_iteration_outcome _ _ _ _ _ _ Hd Hu Hc Hturn)
    as (HK & Hm & He & Hd' & (u1 & Hu1 & Hshape) & [c1 Hc1] & Hex).
  destruct r' as [[]|ex].
  - intros [= <- <-]. repeat split; eauto. intros e [=].
  - intros Hrest.
    destruct (IH _ _ _ Hd' Hu1 Hc1 Hrest) as (HK' & Hm' & He' & Hd'' & (u2 & Hu2 & Hshape') & Hex').
    repeat split; try congruence; eauto. exists u2. split; [done|congruence].
  - intros [= <- <-]. repeat split; eauto. intros e [= <-]. now apply Hex.
Qed.

(** What precedes the loop, in every case. *)
Lemma fit_prologue_outcome draw data_ u_ self s r :
  fit_prologue draw data_ u_ self = (s, r) ->
  n_clusters s = n_clusters self /\ mu s = mu self /\ eps s = eps self /\
  (concat data_ <> [] -> data s = Some data_) /\
  (forall m, u_ = Some m -> concat data_ <> [] -> concat m <> [] -> u s = Some m) /\
  (r = Ok tt -> exists u0 c0, data s = Some data_ /\ u s = Some u0 /\ centers s = Some c0) /\
  (forall e, r = Raise e -> e = ValueError \/ e = ZeroDivisionError).
Proof.
  unfold fit_prologue, _update_centroids, _gerar_inicializacao, attr, lift.
  unfold mbind, stx_bind.
  destruct (to_bigfloat data_) as [d|ex] eqn:Hd; simpl.
  2: { intros [= <- <-]. unfold to_bigfloat in Hd.
       destruct (concat data_) eqn:Hempty; [|done]. injection Hd as <-.
       split_and!; try done. intros e [= <-]. now left. }
  apply to_bigfloat_Ok in Hd as [-> Hdata].
  destruct u_ as [m|]; simpl.
  - destruct (to_bigfloat m) as [m'|ex] eqn:Hm; simpl.
    + apply to_bigfloat_Ok in Hm as [-> Hm].
      destruct (update_centroids m data_ (mu self)) as [c|ex] eqn:Hc;
        intros [= <- <-]; simpl; split_and!;
        try done; try (now intros m0 [= <-]); eauto.
      intros e [= <-]. now apply update_centroids_Raise in Hc.
    + intros [= <- <-]. unfold to_bigfloat in Hm.
      destruct (concat m) eqn:Hempty; [|done]. injection Hm as <-.
      simpl. split_and!; try done; try (now intros m0 [= <-] _ Hne).
      intros e [= <-]. now left.
  - destruct (to_bigfloat (draw (n_clusters self) (shape0 data_))) as [m'|ex] eqn:Hm;
      simpl.
    + apply to_bigfloat_Ok in Hm as [-> Hm].
      destruct (update_centroids _ data_ (mu self)) as [c|ex] eqn:Hc;
        intros [= <- <-]; simpl; split_and!; try done; eauto.
      intros e [= <-]. now apply update_centroids_Raise in Hc.
    + intros [= <- <-]. unfold to_bigfloat in Hm.
      destruct (concat (draw (n_clusters self) (shape0 data_))) eqn:Hempty; [|done].
      injection Hm as <-. simpl. split_and!; try done.
      intros e [= <-]. now left.
Qed.

(** X12: an exception of [fit] is a [ValueError], a [ZeroDivisionError],
    an [IndexError] or an [AssertionError]: a fit never fails on a missing
    attribute, and the program has no error kind of its own. *)
Theorem fit_exceptions (fuel : nat) draw data_ u_ self s e :
  fit fuel draw data_ u_ self = Some (s, Raise e) ->
  e = ValueError \/ e = ZeroDivisionError \/ e = IndexError \/ e = AssertionError.
Proof.
  unfold fit.
  destruct (fit_prologue draw data_ u_ self) as [primed [[]|ex]] eqn:Hpro.
  - destruct (fit_prologue_outcome _ _ _ _ _ _ Hpro) as (_ & _ & _ & _ & _ & Hready & _).
    destruct Hready as (u0 & c0 & Hd & Hu & Hc); [done|].
    intros Hloop.
    destruct (fit_loop_outcome _ _ _ _ _ _ _ Hd Hu Hc Hloop) as (_ & _ & _ & _ & _ & Hex).
    now apply Hex.
  - intros [= <- <-].
    destruct (fit_prologue_outcome _ _ _ _ _ _ Hpro) as (_ & _ & _ & _ & _ & _ & Hex).
    destruct (Hex ex) as [-> | ->]; tauto.
Qed.

(** X13: on a data matrix without elements [fit] raises [ValueError] at
    once and leaves the instance as it was. *)
Theorem fit_empty_data (fuel : nat) draw data_ u_ self :
  concat data_ = [] ->
  fit fuel draw data_ u_ self = Some (self, Raise ValueError).
Proof.
  intros Hempty. unfold fit, fit_prologue, lift, to_bigfloat.
  unfold mbind at 1, stx_bind at 1. now rewrite Hempty.
Qed.

(** X14: however a fit ends, the instance keeps its cluster count, its
    [mu] and its [eps], and, when the data matrix has elements, holds that
    data matrix. *)
Theorem fit_keeps_configuration (fuel : nat) draw data_ u_ self s r :
  fit fuel draw data_ u_ self = Some (s, r) ->
  n_clusters s = n_clusters self /\ mu s = mu self /\ eps s = eps self /\
  (concat data_ <> [] -> data s = Some data_).
Proof.
  unfold fit.
  destruct (fit_prologue draw data_ u_ self) as [primed [[]|ex]] eqn:Hpro.
  - destruct (fit_prologue_outcome _ _ _ _ _ _ Hpro)
      as (HK & Hm & He & _ & _ & Hready & _).
    destruct Hready as (u0 & c0 & Hd & Hu & Hc); [done|].
    intros Hloop.
    destruct (fit_loop_outcome _ _ _ _ _ _ _ Hd Hu Hc Hloop) as (HK' & Hm' & He' & Hd' & _).
    repeat split; congruence.
  - intros [= <- <-].
    destruct (fit_prologue_outcome _ _ _ _ _ _ Hpro) as (HK & Hm & He & Hd & _).
    done.
Qed.

(** X15: however a fit on a supplied initial membership ends, once both
    inputs have elements the membership matrix of the instance has the row
    lengths of the supplied one. *)
Theorem fit_keeps_membership_shape (fuel : nat) draw data_ u0 self s r :
  concat data_ <> [] -> concat u0 <> [] ->
  fit fuel draw data_ (Some u0) self = Some (s, r) ->
  exists u', u s = Some u' /\ length <$> u' = length <$> u0.
Proof.
  intros Hdata Hu0. unfold fit.
  destruct (fit_prologue draw data_ (Some u0) self) as [primed [[]|ex]] eqn:Hpro.
  - destruct (fit_prologue_outcome _ _ _ _ _ _ Hpro)
      as (_ & _ & _ & _ & Hu & Hready & _).
    destruct Hready as (u1 & c0 & Hd & Hu1 & Hc); [done|].
    rewrite (Hu u0) in Hu1 by done. injection Hu1 as <-.
    intros Hloop.
    destruct (fit_loop_outcome _ _ _ _ _ _ _ Hd (Hu u0 eq_refl Hdata Hu0) Hc Hloop)
      as (_ & _ & _ & _ & Hshape & _).
    done.
  - intros [= <- <-].
    destruct (fit_prologue_outcome _ _ _ _ _ _ Hpro) as (_ & _ & _ & _ & Hu & _).
    exists u0. split; [now apply Hu|done].
Qed.

(** X16: a fit that returns does not depend on what an earlier fit left in
    the instance: two instances with the same cluster count, [mu] and [eps]
    reach the same final state on the same inputs. *)
Theorem fit_ignores_previous_fit (fuel : nat) draw data_ u_ self self0 final :
  n_clusters self0 = n_clusters self -> mu self0 = mu self -> eps self0 = eps self ->
  fit fuel draw data_ u_ self = Some (final, Ok tt) ->
  fit fuel draw data_ u_ self0 = Some (final, Ok tt).
Proof.
  intros HK Hm He. unfold fit.
  destruct (fit_prologue draw data_ u_ self) as [primed [[]|ex]] eqn:Hpro; [|done].
  apply fit_prologue_spec in Hpro as (Hne & u0 & Hinit & c & Hc & ->).
  assert (fit_prologue draw data_ u_ self0
          = (set_centers c (set_u u0 (set_data data_ self)), Ok tt)) as ->; [|done].
  apply fit_prologue_spec. split; [done|]. exists u0. split.
  - unfold spec_initial in *. destruct u_; [done|]. congruence.
  - exists c. split; [congruence|].
    unfold set_centers, set_u, set_data. simpl. now rewrite HK, Hm, He.
Qed.

End FitRun.

(** ** Shapes that do not fit, continued *)

Section ShapeErrors.

Context {num : Type} `{MpfOps num}.
Implicit Types (u data d : matrix num) (mu : num).

(** X17: two matrices whose numbers of rows differ, neither of them being
    one, have no norm: the subtraction raises [ValueError]. *)
Theorem matrix_norm_mismatch (a b : matrix num) :
  length a <> length b -> length a <> 1 -> length b <> 1 ->
  matrix_norm a b = Raise ValueError.
Proof.
  intros Hab Ha Hb. unfold matrix_norm, np_subtract2, broadcast.
  destruct (Nat.eqb_spec (length a) (length b)) as [|_]; [done|].
  destruct a as [|r [|r' a]], b as [|s [|s' b]]; simpl in *; done.
Qed.

(** X18: with at least one point and one cluster and [mu - 1] not zero, a
    distance matrix that has no entry [distances[0][0]] makes
    [update_membership] raise [IndexError] before anything is written. *)
Theorem update_membership_no_distance u data d K mu :
  0 < shape0 data -> 0 < K ->
  mp_is_zero (mp_sub mu mpf_1) = false ->
  entry d 0 0 = None ->
  update_membership u data d K mu = (u, Raise IndexError).
Proof.
  intros HN HK Hmu Hnone.
  rewrite update_membership_unfold, update_membership_loops_unfold.
  rewrite fdiv_nonzero by done.
  destruct (shape0 data) as [|N]; [lia|]. destruct K as [|K]; [lia|].
  change (visits (S N) (S K)) with
    (((0, 0) :: (seq 1 K ≫= fun i => [(0, i)])) ++
     (seq 1 N ≫= fun k => seq 0 (S K) ≫= fun i => [(k, i)])).
  rewrite <- app_comm_cons, for_each_update_entry.
  assert (membership_value d (S K) (mp_quot mpf_2 (mp_sub mu mpf_1)) 0 0
          = Raise IndexError) as ->; [|done].
  unfold membership_value. cbn [seq traverse].
  assert (razao_entre_as_distancias d (mp_quot mpf_2 (mp_sub mu mpf_1)) 0 0 0
          = Raise IndexError) as ->; [|done].
  unfold razao_entre_as_distancias, index. unfold entry in Hnone.
  destruct (d !! 0) as [row|]; simpl in *; [|done]. now rewrite Hnone.
Qed.

End ShapeErrors.

(** ** Further runs on exact arithmetic *)

Lemma calculate_euclidean_distance_mismatch_witness :
  calculate_euclidean_distance space_point plane_point = Raise ValueError.
Proof.
  apply (calculate_euclidean_distance_mismatch space_point plane_point);
    cbn [length space_point plane_point]; lia.
Defined.

Lemma calculate_euclidean_distance_symmetric_witness :
  calculate_euclidean_distance plane_point [rat 5 1; rat 7 1]
  = calculate_euclidean_distance [rat 5 1; rat 7 1] plane_point.
Proof.
  apply (calculate_euclidean_distance_symmetric plane_point [rat 5 1; rat 7 1]).
  intros a b Ha Hb. unfold plane_point in Ha.
  apply elem_of_cons in Ha as [->|Ha]; [|apply elem_of_cons in Ha as [->|Ha]];
    [| |now apply elem_of_nil in Ha];
    (apply elem_of_cons in Hb as [->|Hb]; [|apply elem_of_cons in Hb as [->|Hb]];
      [| |now apply elem_of_nil in Hb]); vm_compute; reflexivity.
Defined.

Lemma calculate_distances_mismatch_witness :
  calculate_distances two_points space_center = Raise ValueError.
Proof.
  eapply (calculate_distances_mismatch two_points space_center 0 0).
  - reflexivity.
  - reflexivity.
  - vm_compute. lia.
  - vm_compute. lia.
  - vm_compute. lia.
Defined.

Lemma matrix_norm_same_shape_witness :
  matrix_norm two_by_two_u other_u =
  Ok (mp_sqrt (np_sum (concat (zip_with (fun r r' =>
        map (fun p => mp_pow (mp_sub p.1 p.2) mpf_2) (zip r r'))
        two_by_two_u other_u)))).
Proof.
  apply (matrix_norm_same_shape two_by_two_u other_u). repeat constructor.
Defined.

Lemma matrix_norm_mismatch_witness :
  matrix_norm two_by_two_u three_rows = Raise ValueError.
Proof.
  apply (matrix_norm_mismatch two_by_two_u three_rows); vm_compute; lia.
Defined.

Lemma update_membership_frame_witness :
  exists u' : list (list xnum),
    length <$> u' = length <$> three_rows /\
    forall i k, ~ (k < shape0 line_points /\ i < 2) -> entry u' i k = entry three_rows i k.
Proof.
  eexists.
  eapply (update_membership_frame three_rows line_points some_distances 2 (rat 2 1)).
  vm_compute. reflexivity.
Defined.

Lemma update_membership_nothing_to_update_witness :
  update_membership two_by_two_u line_points some_distances 0 (rat 2 1)
  = (two_by_two_u, __verificar_soma_igual_a_1__ two_by_two_u).
Proof.
  apply (update_membership_nothing_to_update two_by_two_u line_points some_distances
           0 (rat 2 1)).
  - now right.
  - vm_compute. reflexivity.
Defined.

Lemma update_membership_u_too_small_witness :
  exists u', update_membership one_row_u line_points some_distances 2 (rat 2 1)
             = (u', Raise IndexError).
Proof.
  apply (update_membership_u_too_small one_row_u line_points some_distances 2
           (rat 2 1) 0 1).
  - intros k j Hk Hj.
    below2 k Hk; below2 j Hj; eexists;
      (split; [vm_compute; reflexivity|vm_compute; reflexivity]).
  - vm_compute. reflexivity.
  - intros k i Hk Hi. below2 k Hk; below2 i Hi; vm_compute; reflexivity.
  - cbn. lia.
  - lia.
  - vm_compute. reflexivity.
Defined.

Lemma update_membership_no_distance_witness :
  update_membership two_by_two_u line_points [] 2 (rat 2 1)
  = (two_by_two_u, Raise IndexError).
Proof.
  apply (update_membership_no_distance two_by_two_u line_points [] 2 (rat 2 1)).
  - cbn. lia.
  - lia.
  - vm_compute. reflexivity.
  - reflexivity.
Defined.

Lemma update_centroids_no_dimension_witness :
  update_centroids two_by_two_u no_columns (rat 2 1) = Raise ZeroDivisionError.
Proof.
  apply (update_centroids_no_dimension two_by_two_u no_columns (rat 2 1)).
  - discriminate.
  - reflexivity.
Defined.

Lemma mmg_sum_witness :
  mmg two_by_two_u two_points other_points (rat 2 1) =
  Ok (foldl (fun total (p : nat * list xnum * (nat * list xnum)) =>
               mp_add total
                 (mp_mul (mp_fsum (np_power (zip_with mp_sub p.2.2 p.1.2) mpf_2))
                         (mp_pow (d_at two_by_two_u p.2.1 p.1.1) (rat 2 1))))
            mpf_0
            (id ← imap pair two_points; jc ← imap pair other_points; [(id, jc)])).
Proof.
  apply (mmg_sum two_by_two_u two_points other_points (rat 2 1) 2).
  - repeat constructor.
  - repeat constructor.
  - intros i j Hi Hj.
    below2 i Hi; below2 j Hj; eexists;
      (split; [vm_compute; reflexivity|vm_compute; reflexivity]).
Defined.

Lemma fit_exceptions_witness :
  ZeroDivisionError = ValueError \/ ZeroDivisionError = ZeroDivisionError \/
  ZeroDivisionError = IndexError \/ ZeroDivisionError = AssertionError.
Proof.
  eapply (fit_exceptions 1 no_draw line_points (Some crisp_u)
            (__init__ 2 (rat 2 1) (rat 1 100))).
  vm_compute. reflexivity.
Defined.

Lemma fit_empty_data_witness :
  fit 3 no_draw [] (Some test_u) (__init__ 2 (rat 2 1) (rat 1 100))
  = Some (__init__ 2 (rat 2 1) (rat 1 100), Raise ValueError).
Proof.
  apply (fit_empty_data 3 no_draw [] (Some test_u) (__init__ 2 (rat 2 1) (rat 1 100))).
  reflexivity.
Defined.

Lemma fit_keeps_configuration_witness :
  exists s : FCM xnum,
    n_clusters s = 2 /\ mu s = rat 2 1 /\ eps s = rat 1 1 /\
    (concat test_X <> [] -> data s = Some test_X).
Proof.
  eexists.
  eapply (fit_keeps_configuration 1 no_draw test_X (Some test_u)
            (__init__ 2 (rat 2 1) (rat 1 1))).
  vm_compute. reflexivity.
Defined.

Lemma fit_keeps_membership_shape_witness :
  exists (s : FCM xnum) u', u s = Some u' /\ length <$> u' = length <$> test_u.
Proof.
  eexists.
  eapply (fit_keeps_membership_shape 1 no_draw test_X test_u
            (__init__ 2 (rat 2 1) (rat 1 1))).
  - vm_compute. discriminate.
  - vm_compute. discriminate.
  - vm_compute. reflexivity.
Defined.

Lemma fit_ignores_previous_fit_witness :
  exists final,
    fit 1 no_draw test_X (Some test_u)
        (set_centers other_points (set_u other_u (__init__ 2 (rat 2 1) (rat 1 1))))
    = Some (final, Ok tt).
Proof.
  eexists.
  apply (fit_ignores_previous_fit 1 no_draw test_X (Some test_u)
           (__init__ 2 (rat 2 1) (rat 1 1))).
  - reflexivity.
  - reflexivity.
  - reflexivity.
  - vm_compute. reflexivity.
Defined.
